(** * process_cass_values.py: parse, normalize and render benchmark samples

    A shallow embedding of [src/process_cass_values.py] and the proofs of
    the properties its specification states.

    - Python [float] is IEEE-754 binary64: [spec_float] of the standard
      library with [prec = 53] and [emax = 1024], every operation rounding
      to nearest, ties to even.
    - Python [str] is [string]; a character is a code point below 256.
    - A sample is a Python [dict] from field names to [Optional[float]]:
      a [gmap string (option float)].
    - Exceptions are values of type [exn]; code that can raise returns a
      [result].
    - The files, the terminal and matplotlib are the [World] of a run:
      it says whether a file can be written, whether matplotlib can be
      imported and what [savefig] raises.  Of the calls that draw the
      chart, [plt.ylim] raises for a limit that is [nan] or infinite.
    - What a run writes is an [Out], stream by stream. *)

From Stdlib Require Import ZArith Lia Bool List Ascii String SpecFloat DecimalString.
From stdpp Require Import gmap strings list sorting.

Local Open Scope string_scope.
Local Open Scope Z_scope.

(* ===================================================================== *)
(** * Python floats *)
(* ===================================================================== *)

Module Float.

Definition prec : Z := 53.
Definition emax : Z := 1024.

Definition float : Type := spec_float.

(** int -> float conversion, exact for the small constants of the program *)
Definition of_Z (n : Z) : float := binary_normalize prec emax n 0 false.

Definition zero : float := S754_zero false.
Definition one : float := Eval vm_compute in of_Z 1.
Definition hundred : float := Eval vm_compute in of_Z 100.
Definition inf : float := S754_infinity false.
Definition nan : float := S754_nan.

(** [x < y], [x <= y], [x == y] *)
Definition ltb (x y : float) : bool := SFltb x y.
Definition leb (x y : float) : bool := SFleb x y.
Definition eqb (x y : float) : bool := SFeqb x y.
(** [x > y] is [y < x] *)
Definition gtb (x y : float) : bool := SFltb y x.

(** [bool(x)]: a float is falsy exactly when it compares equal to zero
    (so [0.0] and [-0.0] are falsy and [nan] is truthy) *)
Definition truthy (x : float) : bool := negb (SFeqb x zero).

Definition sub (x y : float) : float := SFsub prec emax x y.
Definition add (x y : float) : float := SFadd prec emax x y.
Definition mul (x y : float) : float := SFmul prec emax x y.
(** the quotient computed by [x / y] once [y] is known to be non-zero *)
Definition div (x y : float) : float := SFdiv prec emax x y.

Definition is_nan (x : float) : bool :=
  match x with S754_nan => true | _ => false end.

Definition is_finite (x : float) : bool :=
  match x with S754_zero _ | S754_finite _ _ _ => true | _ => false end.

(** the same value, bit for bit (unlike [eqb], which is [==]) *)
Definition same (x y : float) : bool :=
  match x, y with
  | S754_zero s1, S754_zero s2 => Bool.eqb s1 s2
  | S754_infinity s1, S754_infinity s2 => Bool.eqb s1 s2
  | S754_nan, S754_nan => true
  | S754_finite s1 m1 e1, S754_finite s2 m2 e2 =>
      Bool.eqb s1 s2 && Pos.eqb m1 m2 && Z.eqb e1 e2
  | _, _ => false
  end.

(** the representation invariant of a binary64 value *)
Definition valid (x : float) : bool := valid_binary prec emax x.

(** The float nearest to [(-1)^neg * M * 10^E]. *)
Definition of_decimal (neg : bool) (M : Z) (E : Z) : float :=
  match M with
  | Z0 => S754_zero neg
  | Zpos m =>
      match E with
      | Zneg e => SFdiv prec emax (S754_finite neg m 0)
                    (S754_finite false (Pos.pow 10 e) 0)
      | Zpos e => binary_round prec emax neg (m * Pos.pow 10 e) 0
      | Z0 => binary_round prec emax neg m 0
      end
  | Zneg _ => S754_nan
  end.

End Float.

Import Float.

(* ===================================================================== *)
(** * Python strings *)
(* ===================================================================== *)

Module Str.

Definition code (c : ascii) : N := N_of_ascii c.

Definition in_range (lo hi : N) (c : ascii) : bool :=
  ((lo <=? code c) && (code c <=? hi))%N.

(** [str.isspace] on one character (code points below 256) *)
Definition isspace (c : ascii) : bool :=
  in_range 9 13 c || in_range 28 32 c
  || (code c =? 133)%N || (code c =? 160)%N.

Definition is_digit (c : ascii) : bool := in_range 48 57 c.

Definition digit_val (c : ascii) : Z := Z.of_N (code c) - 48.

Definition upper_char (c : ascii) : ascii :=
  if in_range 97 122 c then ascii_of_N (code c - 32) else c.

Definition lower_char (c : ascii) : ascii :=
  if in_range 65 90 c then ascii_of_N (code c + 32) else c.

(** [s.upper()].  Only the letters a-z are moved: the uppercase forms of
    the other letters below 256 are not ASCII, so they never take part
    in an equality with an ASCII literal, which is the only use of
    [upper] in the program. *)
Fixpoint upper (s : string) : string :=
  match s with
  | EmptyString => EmptyString
  | String c s' => String (upper_char c) (upper s')
  end.

Fixpoint lower (s : string) : string :=
  match s with
  | EmptyString => EmptyString
  | String c s' => String (lower_char c) (lower s')
  end.

Section Strip.
Variable sp : ascii -> bool.

Fixpoint lstrip_with (s : string) : string :=
  match s with
  | EmptyString => EmptyString
  | String c s' => if sp c then lstrip_with s' else s
  end.

Fixpoint rstrip_with (s : string) : string :=
  match s with
  | EmptyString => EmptyString
  | String c s' =>
      match rstrip_with s' with
      | EmptyString => if sp c then EmptyString else String c EmptyString
      | r => String c r
      end
  end.

Definition strip_with (s : string) : string := rstrip_with (lstrip_with s).
End Strip.

(** [s.strip()] *)
Definition strip : string -> string := strip_with isspace.

(** [s.split(sep)] for a one-character separator *)
Fixpoint split (sep : ascii) (s : string) : list string :=
  match s with
  | EmptyString => [EmptyString]
  | String c s' =>
      if Ascii.eqb c sep then EmptyString :: split sep s'
      else match split sep s' with
           | [] => [String c EmptyString]
           | w :: ws => String c w :: ws
           end
  end.

(** [sep.join(l)] *)
Fixpoint join (sep : string) (l : list string) : string :=
  match l with
  | [] => EmptyString
  | [x] => x
  | x :: rest => x +:+ sep +:+ join sep rest
  end.

(** [c * n] *)
Fixpoint repeat_char (c : ascii) (n : nat) : string :=
  match n with O => EmptyString | S n' => String c (repeat_char c n') end.

(** left-justify in a field of [w] characters: ["{:ws}".format(s)] *)
Definition ljust (w : nat) (s : string) : string :=
  s +:+ repeat_char " " (w - String.length s).

End Str.

(* ===================================================================== *)
(** * The builtin [float(str)] *)
(* ===================================================================== *)

Module FloatOfString.

Import Str.

(** Underscores may only stand between two digits; they are removed
    before the number is read. *)
Fixpoint remove_underscores (prev : ascii) (s : string) : option string :=
  match s with
  | EmptyString => if Ascii.eqb prev "_" then None else Some EmptyString
  | String c s' =>
      if Ascii.eqb c "_" then
        if is_digit prev then remove_underscores c s' else None
      else if Ascii.eqb prev "_" && negb (is_digit c) then None
      else String c <$> remove_underscores c s'
  end.

(** white space skipped by [float] around the number *)
Definition float_isspace (c : ascii) : bool :=
  in_range 9 13 c || (code c =? 32)%N || (code c =? 133)%N || (code c =? 160)%N.

(** the longest prefix of digits: its value, its length, and the rest *)
Fixpoint digits (acc : Z) (n : Z) (s : string) : Z * Z * string :=
  match s with
  | String c s' =>
      if is_digit c then digits (10 * acc + digit_val c) (n + 1) s'
      else (acc, n, s)
  | EmptyString => (acc, n, s)
  end.

Definition sign (s : string) : bool * string :=
  match s with
  | String "-" s' => (true, s')
  | String "+" s' => (false, s')
  | _ => (false, s)
  end.

(** [exponent ::= ("e" | "E") [sign] digitpart], up to the end *)
Definition exponent (s : string) : option Z :=
  match s with
  | EmptyString => Some 0
  | String c s' =>
      if Ascii.eqb (lower_char c) "e" then
        let '(neg, s1) := sign s' in
        let '(e, n, rest) := digits 0 0 s1 in
        if (0 <? n) && String.eqb rest EmptyString
        then Some (if neg then - e else e) else None
      else None
  end.

(** [number [exponent]] with
    [number ::= [digitpart] "." digitpart | digitpart ["."]] *)
Definition decimal (neg : bool) (s : string) : option float :=
  let '(ip, ni, s1) := digits 0 0 s in
  let '(m, nf, s2) :=
    match s1 with
    | String "." s' => let '(m, n, r) := digits ip 0 s' in (m, n, r)
    | _ => (ip, 0, s1)
    end in
  if 0 <? ni + nf then
    match exponent s2 with
    | Some e => Some (of_decimal neg m (e - nf))
    | None => None
    end
  else None.

(** ["inf"], ["infinity"] and ["nan"], in any case *)
Definition inf_or_nan (neg : bool) (s : string) : option float :=
  let l := lower s in
  if String.eqb l "inf" || String.eqb l "infinity" then Some (S754_infinity neg)
  else if String.eqb l "nan" then Some S754_nan
  else None.

(** [float(s)]: [None] stands for [ValueError] *)
Definition py_float (s : string) : option float :=
  match remove_underscores "000" s with
  | None => None
  | Some s0 =>
      let '(neg, s1) := sign (strip_with float_isspace s0) in
      match decimal neg s1 with
      | Some x => Some x
      | None => inf_or_nan neg s1
      end
  end.

End FloatOfString.

Import FloatOfString.

(* ===================================================================== *)
(** * Exceptions *)
(* ===================================================================== *)

Inductive exn : Type :=
| ValueError (msg : string)
| KeyError (key : string)
| ZeroDivisionError
| OSError (msg : string)
| RuntimeError (msg : string).

Inductive result (A : Type) : Type :=
| Ok (a : A)
| Raise (e : exn).

Arguments Ok {A} a.
Arguments Raise {A} e.

Global Instance result_ret : MRet result := @Ok.

Global Instance result_bind : MBind result := λ A B k r,
  match r with
  | Ok a => k a
  | Raise e => Raise e
  end.

(** run [f] on the elements from left to right, stop at the first exception *)
Fixpoint for_each {A B : Type} (f : A -> result B) (l : list A) : result (list B) :=
  match l with
  | [] => Ok []
  | a :: l' => b ← f a; bs ← for_each f l'; Ok (b :: bs)
  end.

(* ===================================================================== *)
(** * Samples *)
(* ===================================================================== *)

(** A sample is the dict built by [parse_point]; a key maps to [None]
    (Python's [None]) or to a float. *)
Abbreviation Sample := (gmap string (option float)).

(** Code that works on one dict: it gets the dict, may change it, and
    returns a value or raises. *)
Definition dictM (A : Type) : Type := Sample -> Sample * result A.

Global Instance dictM_ret : MRet dictM := λ A a d, (d, Ok a).

Global Instance dictM_bind : MBind dictM := λ A B k m d,
  match m d with
  | (d', Ok a) => k a d'
  | (d', Raise e) => (d', Raise e)
  end.

(** [pt[k]]: a missing key raises [KeyError] *)
Definition getitem (k : string) : dictM (option float) := λ d,
  (d, match d !! k with
      | Some v => Ok v
      | None => Raise (KeyError k)
      end).

(** the value of [pt.get(k)]: [None] for a missing key as for a stored
    [None] *)
Definition field (pt : Sample) (k : string) : option float :=
  match pt !! k with
  | Some v => v
  | None => None
  end.

(** [pt.get(k)] *)
Definition get (k : string) : dictM (option float) := λ d, (d, Ok (field d k)).

(** [pt[k] = v] *)
Definition setitem (k : string) (v : option float) : dictM unit := λ d,
  (<[k := v]> d, Ok tt).

(** a computation that does not touch the dict *)
Definition lift {A : Type} (r : result A) : dictM A := λ d, (d, r).

(** the value of a computation on a dict *)
Definition eval {A : Type} (m : dictM A) (d : Sample) : result A := snd (m d).

(** [for pt in points: st = body(st)], the body working on [pt].  The
    result holds the list after the loop, the last state reached, and
    the exception if the body raised one. *)
Fixpoint for_points {St : Type} (body : St -> dictM St) (pts : list Sample) (st : St)
  : list Sample * St * result unit :=
  match pts with
  | [] => ([], st, Ok tt)
  | pt :: rest =>
      match body st pt with
      | (pt', Ok st') =>
          let '(rest', st'', r) := for_points body rest st' in
          (pt' :: rest', st'', r)
      | (pt', Raise e) => (pt' :: rest, st, Raise e)
      end
  end.

(* ===================================================================== *)
(** * Point parser *)
(* ===================================================================== *)

(** the local function [parse_num] of [parse_point] *)
Definition parse_num (val : string) : option float :=
  let val := Str.strip val in
  if String.eqb val "" || String.eqb (Str.upper val) "N/A" then None
  else
    match py_float val with
    | Some x => Some x
    | None => None
    end.

Definition bad_point (text : string) : string :=
  "Bad point '" +:+ text +:+ "': expected cpu,throughput,latency".

(** the dict [{"cpu_pct": cpu, "throughput": thr, "latency": lat}] *)
Definition sample (cpu thr lat : option float) : Sample :=
  <["latency" := lat]> (<["throughput" := thr]> (<["cpu_pct" := cpu]> ∅)).

Definition parse_point (text : string) : result Sample :=
  let parts := Str.split "," text in
  if negb (Nat.eqb (length parts) 3) then Raise (ValueError (bad_point text))
  else
    let cpu := parse_num (nth 0 parts "") in
    let thr := parse_num (nth 1 parts "") in
    let lat := parse_num (nth 2 parts "") in
    Ok (sample cpu thr lat).

(* ===================================================================== *)
(** * Normalizer *)
(* ===================================================================== *)

(** the body of the first loop of [add_normalized] *)
Definition max_step (max_thr : option float) : dictM (option float) :=
  thr ← get "throughput";
  match thr with
  | None => mret max_thr
  | Some t =>
      match max_thr with
      | None => mret (Some t)
      | Some m => if gtb t m then mret (Some t) else mret max_thr
      end
  end.

(** [x / y] *)
Definition truediv (x y : float) : result float :=
  if eqb y zero then Raise ZeroDivisionError else Ok (div x y).

(** the body of the second loop of [add_normalized] *)
Definition normalize_point (max_thr : option float) (_ : unit) : dictM unit :=
  thr ← get "throughput";
  match max_thr, thr with
  | Some m, Some t =>
      if truthy m then
        q ← lift (truediv t m);
        setitem "normalized_throughput" (Some q)
      else setitem "normalized_throughput" None
  | _, _ => setitem "normalized_throughput" None
  end.

(** [add_normalized(points)]: the list after the call, and the exception
    if one was raised *)
Definition add_normalized (points : list Sample) : list Sample * result unit :=
  match for_points max_step points None with
  | (points, max_thr, Ok _) =>
      let '(points, _, r) := for_points (normalize_point max_thr) points tt in
      (points, r)
  | (points, _, Raise e) => (points, Raise e)
  end.

(** the value of [max_thr] after the first loop *)
Definition max_throughput (points : list Sample) : option float :=
  snd (fst (for_points max_step points None)).

(** the throughputs that are not [None] *)
Definition throughputs (points : list Sample) : list float :=
  omap (λ pt : Sample, field pt "throughput") points.

(* ===================================================================== *)
(** * Formatting floats *)
(* ===================================================================== *)

Module FloatFormat.

Import Str.

(** the decimal digits of a natural number *)
Definition string_of_N (n : N) : string := NilZero.string_of_uint (N.to_uint n).

Definition string_of_Z (n : Z) : string := string_of_N (Z.to_N n).

Definition sign_prefix (neg : bool) : string := if neg then "-" else "".

(** [num / den] rounded to the nearest integer, ties to even ([0 < den]) *)
Definition round_half_even (num den : Z) : Z :=
  let q := num / den in
  let r := num mod den in
  match 2 * r ?= den with
  | Lt => q
  | Gt => q + 1
  | Eq => if Z.even q then q else q + 1
  end.

(** [m * 2^e * 10^p] rounded to the nearest integer, ties to even *)
Definition scaled (p : nat) (m : positive) (e : Z) : Z :=
  if 0 <=? e then Zpos m * 2 ^ e * 10 ^ Z.of_nat p
  else round_half_even (Zpos m * 10 ^ Z.of_nat p) (2 ^ (- e)).

(** the integer [n] written with the decimal point [p] digits from the
    right, and at least one digit before it *)
Definition fixed_point (p : nat) (n : Z) : string :=
  let s := string_of_Z n in
  let s := repeat_char "0" (S p - String.length s) +:+ s in
  let k := (String.length s - p)%nat in
  match p with
  | O => s
  | _ => substring 0 k s +:+ "." +:+ substring k p s
  end.

(** [f"{x:.pf}"] *)
Definition format_f (p : nat) (x : float) : string :=
  match x with
  | S754_nan => "nan"
  | S754_infinity s => sign_prefix s +:+ "inf"
  | S754_zero s => sign_prefix s +:+ fixed_point p 0
  | S754_finite s m e => sign_prefix s +:+ fixed_point p (scaled p m e)
  end.

(** ** [repr(x)]: the shortest decimal string that reads back as [x] *)

(** [num / den < 10^k] *)
Definition below_pow10 (num den k : Z) : bool :=
  if 0 <=? k then num <? den * 10 ^ k else num * 10 ^ (- k) <? den.

(** the least [k >= k0] with [num / den < 10^k] *)
Fixpoint decimal_point (fuel : nat) (k : Z) (num den : Z) : Z :=
  match fuel with
  | O => k
  | S fuel' =>
      if below_pow10 num den k then k else decimal_point fuel' (k + 1) num den
  end.

(** For [n] significant digits, the integers just below and above
    [x / 10^(k-n)], and which one is nearer ([Lt]: the lower one). *)
Definition neighbours (num den k : Z) (n : Z) : Z * Z * comparison :=
  let '(a, b) :=
    if 0 <=? n - k then (num * 10 ^ (n - k), den)
    else (num, den * 10 ^ (k - n)) in
  let lo := a / b in
  (lo, lo + 1, (2 * (a mod b) ?= b)).

(** the [n]-digit decimal that reads back as the float, if there is one;
    of two, the nearer *)
Definition shortest_at (m : positive) (e : Z) (num den k n : Z) : option Z :=
  let '(lo, hi, c) := neighbours num den k n in
  let back d := same (of_decimal false d (k - n)) (S754_finite false m e) in
  match back lo, back hi with
  | true, true =>
      match c with
      | Lt => Some lo
      | Gt => Some hi
      | Eq => Some (if Z.even lo then lo else hi)
      end
  | true, false => Some lo
  | false, true => Some hi
  | false, false => None
  end.

Fixpoint shortest_from (fuel : nat) (m : positive) (e : Z) (num den k n : Z)
  : Z * Z :=
  match fuel with
  | O => (fst (fst (neighbours num den k n)), n)
  | S fuel' =>
      match shortest_at m e num den k n with
      | Some d => (d, n)
      | None => shortest_from fuel' m e num den k (n + 1)
      end
  end.

Fixpoint drop_trailing_zeros (s : string) : string :=
  match s with
  | EmptyString => EmptyString
  | String c s' =>
      match drop_trailing_zeros s' with
      | EmptyString => if Ascii.eqb c "0" then EmptyString else String c EmptyString
      | r => String c r
      end
  end.

(** the shortest digit string of [m * 2^e] and the position of its
    decimal point: the value is [0.d1d2...dn * 10^decpt] *)
Definition shortest_digits (m : positive) (e : Z) : string * Z :=
  let num := if 0 <=? e then Zpos m * 2 ^ e else Zpos m in
  let den := if 0 <=? e then 1 else 2 ^ (- e) in
  let k := decimal_point 640 (-323) num den in
  let '(d, n) := shortest_from 17 m e num den k 1 in
  let s := string_of_Z d in
  (drop_trailing_zeros s, k + (Z.of_nat (String.length s) - n)).

Definition two_digits (n : Z) : string :=
  if n <? 10 then "0" +:+ string_of_Z n else string_of_Z n.

(** the layout of [repr]: exponent notation below [1e-4] and from
    [1e16] on, otherwise positional with a fractional part *)
Definition repr_layout (ds : string) (decpt : Z) : string :=
  let n := Z.of_nat (String.length ds) in
  if (decpt <=? -4) || (16 <? decpt) then
    substring 0 1 ds
    +:+ (if 1 <? n then "." +:+ substring 1 (String.length ds - 1) ds else "")
    +:+ "e" +:+ (if decpt - 1 <? 0 then "-" else "+")
    +:+ two_digits (Z.abs (decpt - 1))
  else if decpt <=? 0 then
    "0." +:+ repeat_char "0" (Z.to_nat (- decpt)) +:+ ds
  else if n <=? decpt then
    ds +:+ repeat_char "0" (Z.to_nat (decpt - n)) +:+ ".0"
  else
    substring 0 (Z.to_nat decpt) ds +:+ "."
    +:+ substring (Z.to_nat decpt) (String.length ds - Z.to_nat decpt) ds.

(** [repr(x)], which is also [str(x)] *)
Definition repr (x : float) : string :=
  match x with
  | S754_nan => "nan"
  | S754_infinity s => sign_prefix s +:+ "inf"
  | S754_zero s => sign_prefix s +:+ "0.0"
  | S754_finite s m e =>
      let '(ds, decpt) := shortest_digits m e in
      sign_prefix s +:+ repr_layout ds decpt
  end.

End FloatFormat.

Import FloatFormat.

(* ===================================================================== *)
(** * Renderers *)
(* ===================================================================== *)

Definition nl : string := String (ascii_of_N 10) EmptyString.
Definition crlf : string := String (ascii_of_N 13) nl.
Definition dquote : string := String (ascii_of_N 34) EmptyString.

(** [x if o is None else f(o)] *)
Definition if_none {A B : Type} (x : B) (f : A -> B) (o : option A) : B :=
  match o with
  | None => x
  | Some a => f a
  end.

(** ** CSV *)

(** [writer.writerow(fields)] of a [csv.writer] with the default dialect.
    A float is written by [str]; a field is quoted only if it holds a
    comma, a quote or a line break, which no field of this program does. *)
Definition writerow (fields : list string) (fh : string) : string :=
  fh +:+ Str.join "," fields +:+ crlf.

Definition csv_header : list string :=
  ["cpu_pct"; "cpu_availability_pct"; "throughput"; "latency";
   "normalized_throughput"].

(** the list written for one sample *)
Definition csv_row : dictM (list string) :=
  cpu ← getitem "cpu_pct";
  let avail := sub hundred <$> cpu in
  thr ← getitem "throughput";
  lat ← getitem "latency";
  norm ← get "normalized_throughput";
  mret [if_none "" repr cpu; if_none "" repr avail; if_none "" (format_f 2) thr;
        if_none "" (format_f 2) lat; if_none "" (format_f 4) norm].

(** [write_csv(points, fh)]: the list and the text of [fh] after the call *)
Definition write_csv (points : list Sample) (fh : string)
  : list Sample * string * result unit :=
  for_points (λ fh, row ← csv_row; mret (writerow row fh)) points
    (writerow csv_header fh).

(** ** Fixed-width table *)

Definition widths : list nat := [12; 14; 12; 10]%nat.

(** [fmt.format(a, b, c, d)] *)
Definition fmt (a b c d : string) : string :=
  Str.ljust 12 a +:+ " " +:+ Str.ljust 14 b +:+ " " +:+ Str.ljust 12 c
  +:+ " " +:+ Str.ljust 10 d.

(** [print(s)] *)
Definition print (s : string) (out : string) : string := out +:+ s +:+ nl.

(** ["{100 - cpu:.0f}%"] *)
Definition availability_label (cpu : float) : string :=
  format_f 0 (sub hundred cpu) +:+ "%".

Definition table_row : dictM string :=
  cpu ← getitem "cpu_pct";
  let cpu_avail := if_none "" availability_label cpu in
  thr ← getitem "throughput";
  lat ← getitem "latency";
  norm ← get "normalized_throughput";
  mret (fmt cpu_avail (if_none "" (format_f 2) thr) (if_none "" (format_f 2) lat)
          (if_none "" (format_f 4) norm)).

(** [print_table(points)]: the list and standard output after the call *)
Definition print_table (points : list Sample) (out : string)
  : list Sample * string * result unit :=
  let out := print (fmt "CPU avail" "Throughput" "Latency" "NormThr") out in
  let out := print (Str.repeat_char "-" (foldr Nat.add 0%nat widths)) out in
  for_points (λ out, row ← table_row; mret (print row out)) points out.

(** ** JSON *)

(** a float or [None] as [json.dumps] writes it *)
Definition json_value (v : option float) : string :=
  match v with
  | None => "null"
  | Some S754_nan => "NaN"
  | Some (S754_infinity s) => sign_prefix s +:+ "Infinity"
  | Some x => repr x
  end.

(** The keys of a sample in the order in which the program inserts them,
    which is the order in which [json.dumps] writes them. *)
Definition sample_keys : list string :=
  ["cpu_pct"; "throughput"; "latency"; "normalized_throughput"].

Definition json_members (pt : Sample) : list string :=
  omap (λ k, (λ v, dquote +:+ k +:+ dquote +:+ ": " +:+ json_value v) <$> pt !! k)
       sample_keys.

Definition json_object (pt : Sample) : string :=
  match json_members pt with
  | [] => "{}"
  | ms => "{" +:+ nl +:+ "    " +:+ Str.join ("," +:+ nl +:+ "    ") ms
          +:+ nl +:+ "  }"
  end.

(** [json.dumps(points, indent=2)] *)
Definition json_dumps (points : list Sample) : string :=
  match points with
  | [] => "[]"
  | _ => "[" +:+ nl +:+ "  " +:+ Str.join ("," +:+ nl +:+ "  ") (json_object <$> points)
         +:+ nl +:+ "]"
  end.

(* ===================================================================== *)
(** * Chart renderer *)
(* ===================================================================== *)

Definition sentinel : float := Eval vm_compute in of_Z 999.

(** the local function [sort_key] of [plot] *)
Definition sort_key : dictM float :=
  cpu ← getitem "cpu_pct";
  mret (match cpu with Some c => c | None => sentinel end).

(** ** [sorted(points, key=sort_key)]

    The keys are computed first; the samples are then put in ascending
    order of their keys by a stable sort that compares keys with [<] only.
    For keys without [nan] every stable sort gives the same list, the one
    built here by insertion; so does CPython's sort for a list that is
    already ascending.  When a key is [nan], [<] is no longer a total
    preorder and the list that CPython leaves depends on its merge
    strategy, which is not modelled: every statement below about the
    order of the bars assumes keys without [nan]. *)
Fixpoint insert_keyed (x : float * Sample) (l : list (float * Sample))
  : list (float * Sample) :=
  match l with
  | [] => [x]
  | y :: l' => if ltb (fst y) (fst x) then y :: insert_keyed x l' else x :: l
  end.

Fixpoint sort_keyed (l : list (float * Sample)) : list (float * Sample) :=
  match l with
  | [] => []
  | x :: l' => insert_keyed x (sort_keyed l')
  end.

Definition with_key (key : dictM float) (pt : Sample) : result (float * Sample) :=
  k ← eval key pt; Ok (k, pt).

Definition sorted (key : dictM float) (points : list Sample) : result (list Sample) :=
  keyed ← for_each (with_key key) points;
  Ok (snd <$> sort_keyed keyed).

(** ** Bars *)

Record Bar : Type := {
  bar_label : string;     (* x-axis label *)
  bar_height : float;
  bar_text : string;      (* annotation above the bar *)
  bar_text_y : float
}.

Record Chart : Type := {
  bars : list Bar;
  ylim_top : float
}.

(** [max(a, b)] of two floats: [b] if [b > a], else [a] *)
Definition max2 (a b : float) : float := if gtb b a then b else a.

(** [max(l)]: the first element, replaced by each later one that is
    greater than the current maximum *)
Definition max_list (l : list float) : result float :=
  match l with
  | [] => Raise (ValueError "max() arg is an empty sequence")
  | a :: l' => Ok (fold_left max2 l' a)
  end.

Definition two : float := Eval vm_compute in of_Z 2.
Definition one_percent : float := Eval vm_compute in of_decimal false 1 (-2).
Definition one_point_one : float := Eval vm_compute in of_decimal false 11 (-1).

(** the label and the height of the bar of one sample *)
Definition label_height : dictM (string * float) :=
  cpu ← getitem "cpu_pct";
  let label := if_none "?" availability_label cpu in
  norm ← get "normalized_throughput";
  mret (label, if_none zero (λ n, mul n hundred) norm).

Definition annotate (lh : string * float) : Bar :=
  let '(label, height) := lh in
  if leb height zero then
    {| bar_label := label; bar_height := height; bar_text := "n/a";
       bar_text_y := one |}
  else
    {| bar_label := label; bar_height := height;
       bar_text := format_f 1 height +:+ "%";
       bar_text_y := add height (max2 two (mul one_percent height)) |}.

(* ===================================================================== *)
(** * The environment of a run *)
(* ===================================================================== *)

Record World : Type := {
  (** [open(path, "w")] and the writes to the file: [None] when they
      succeed, else the text of the [OSError] *)
  open_error : string -> option string;
  (** [sys.stdout.isatty()] *)
  stdout_isatty : bool;
  (** importing matplotlib: [None] when it succeeds, else the text of
      the exception *)
  matplotlib_error : option string;
  (** [plt.tight_layout(); plt.savefig(path)]: [None] when they succeed,
      else the exception they raise *)
  savefig_error : string -> option exn
}.

(** what a run writes, stream by stream: the text written to
    [sys.stdout] and to [sys.stderr], the path and the text written to
    the file object that [main] opens for [--output-csv], and the path
    and the chart passed to [savefig].  The four are kept apart as the
    program keeps them apart.  Which file a path names is the operating
    system's matter: what a file holds in the end when two of them name
    the same one ([--output-csv] equal to [--plot-out], or a path such
    as [/dev/stdout]) is not described here. *)
Record Out : Type := {
  stdout : string;
  stderr : string;
  csv_file : option (string * string);
  chart_file : option (string * Chart)
}.

Definition no_output : Out :=
  {| stdout := ""; stderr := ""; csv_file := None; chart_file := None |}.

Definition set_stdout (s : string) (o : Out) : Out :=
  {| stdout := s; stderr := stderr o; csv_file := csv_file o;
     chart_file := chart_file o |}.

Definition write_stderr (s : string) (o : Out) : Out :=
  {| stdout := stdout o; stderr := stderr o +:+ s; csv_file := csv_file o;
     chart_file := chart_file o |}.

Definition write_stdout (s : string) (o : Out) : Out :=
  set_stdout (stdout o +:+ s) o.

Definition set_csv_file (path text : string) (o : Out) : Out :=
  {| stdout := stdout o; stderr := stderr o; csv_file := Some (path, text);
     chart_file := chart_file o |}.

Definition set_chart_file (path : string) (c : Chart) (o : Out) : Out :=
  {| stdout := stdout o; stderr := stderr o; csv_file := csv_file o;
     chart_file := Some (path, c) |}.

(** the exception of matplotlib's [set_ylim] for a limit that is [nan]
    or infinite *)
Definition axis_error : exn := ValueError "Axis limits cannot be NaN or Inf".

(** [plt.ylim(0, top)] *)
Definition ylim (top : float) : result float :=
  if is_finite top then Ok top else Raise axis_error.

(** [plot(points, out_path)].  The calls that draw the chart stand
    before the [try]: of them only [plt.ylim] depends on the samples,
    and what it raises leaves [plot] with nothing written.  Inside the
    [try] there is no [except]: what [tight_layout] or [savefig] raise
    leaves [plot] as well. *)
Definition plot (w : World) (points : list Sample) (out_path : string) (o : Out)
  : Out * result bool :=
  match matplotlib_error w with
  | Some exc =>
      (write_stderr ("Plotting skipped (matplotlib unavailable): " +:+ exc +:+ nl) o,
       Ok false)
  | None =>
      match pts_sorted ← sorted sort_key points;
            for_each (eval label_height) pts_sorted with
      | Raise e => (o, Raise e)
      | Ok [] => (o, Ok false)
      | Ok lhs =>
          match max_list ((snd <$> lhs) ++ [hundred]) with
          | Raise e => (o, Raise e)
          | Ok top =>
              match ylim (mul top one_point_one) with
              | Raise e => (o, Raise e)
              | Ok limit =>
                  let chart := {| bars := annotate <$> lhs; ylim_top := limit |} in
                  match savefig_error w out_path with
                  | Some e => (o, Raise e)
                  | None =>
                      (write_stdout ("Wrote plot to " +:+ out_path +:+ nl)
                         (set_chart_file out_path chart o), Ok true)
                  end
              end
          end
      end
  end.

(* ===================================================================== *)
(** * [main] *)
(* ===================================================================== *)

Inductive Format : Type := Csv | Json | Table.

(** the namespace returned by [parser.parse_args(argv)] *)
Record Args : Type := {
  points : list string;
  format : Format;
  output_csv : option string;
  plot_out : string;
  no_plot : bool
}.

(** how [main] ends: it returns an exit code, or an exception leaves it *)
Inductive outcome : Type :=
| Returned (code : Z)
| Uncaught (e : exn).

(** truth value of a string *)
Definition nonempty (s : string) : bool := negb (String.eqb s "").

(** a step of [main] on the list of samples: it may end [main] *)
Definition Step : Type := list Sample -> Out -> list Sample * Out * option outcome.

(** the [--output-csv] step *)
Definition output_csv_step (w : World) (args : Args) : Step := λ pts o,
  match output_csv args with
  | Some path =>
      if nonempty path then
        match open_error w path with
        | Some exc =>
            (pts,
             write_stderr ("Failed to write CSV to " +:+ path +:+ ": " +:+ exc +:+ nl) o,
             Some (Returned 1))
        | None =>
            match write_csv pts "" with
            | (pts, text, Ok _) => (pts, set_csv_file path text o, None)
            | (pts, text, Raise e) => (pts, set_csv_file path text o, Some (Uncaught e))
            end
        end
      else (pts, o, None)
  | None => (pts, o, None)
  end.

(** the rendering on standard output *)
Definition format_step (w : World) (args : Args) : Step := λ pts o,
  match format args with
  | Csv =>
      match write_csv pts (stdout o) with
      | (pts, out, Ok _) => (pts, set_stdout out o, None)
      | (pts, out, Raise e) => (pts, set_stdout out o, Some (Uncaught e))
      end
  | Json =>
      let o := write_stdout (json_dumps pts) o in
      (pts, if stdout_isatty w then o else write_stdout nl o, None)
  | Table =>
      match print_table pts (stdout o) with
      | (pts, out, Ok _) => (pts, set_stdout out o, None)
      | (pts, out, Raise e) => (pts, set_stdout out o, Some (Uncaught e))
      end
  end.

(** the chart step *)
Definition plot_step (w : World) (args : Args) : Step := λ pts o,
  if negb (no_plot args) && nonempty (plot_out args) then
    match plot w pts (plot_out args) o with
    | (o, Ok _) => (pts, o, None)
    | (o, Raise e) => (pts, o, Some (Uncaught e))
    end
  else (pts, o, None).

(** run [step], and [rest] unless [step] ended [main] *)
Definition and_then (step : Step)
    (rest : list Sample -> Out -> list Sample * Out * outcome)
  : list Sample -> Out -> list Sample * Out * outcome := λ pts o,
  match step pts o with
  | (pts, o, Some r) => (pts, o, r)
  | (pts, o, None) => rest pts o
  end.

(** [main(argv)] after [parse_args]: the list [points] at the end, what
    was written, and how [main] ended *)
Definition run_main (w : World) (args : Args) : list Sample * Out * outcome :=
  match for_each parse_point (points args) with
  | Raise (ValueError exc) => ([], write_stderr (exc +:+ nl) no_output, Returned 1)
  | Raise e => ([], no_output, Uncaught e)
  | Ok pts =>
      match add_normalized pts with
      | (pts, Raise e) => (pts, no_output, Uncaught e)
      | (pts, Ok _) =>
          and_then (output_csv_step w args)
            (and_then (format_step w args)
               (and_then (plot_step w args)
                  (λ pts o, (pts, o, Returned 0))))
            pts no_output
      end
  end.

Definition main (w : World) (args : Args) : Out * outcome :=
  let '(_, o, r) := run_main w args in (o, r).


(** the float that a decimal literal denotes *)
Definition literal (s : string) : float := default nan (py_float s).

(** ** A run used in examples *)

(** a world in which every file can be written and matplotlib works *)
Definition fair_world : World :=
  {| open_error := λ _, None; stdout_isatty := false;
     matplotlib_error := None; savefig_error := λ _, None |}.

(** the end-to-end scenario: two samples, [--format csv], default plot *)
Definition scenario : Args :=
  {| points := ["0,100000.0,620.0"; "25,82000.0,640.0"]; format := Csv;
     output_csv := None; plot_out := "cass_normalized_throughput.png";
     no_plot := false |}.

(** the samples that the arguments of the scenario parse to *)
Definition scenario_points : list Sample :=
  [sample (Some zero) (Some (literal "100000.0")) (Some (literal "620.0"));
   sample (Some (literal "25")) (Some (literal "82000.0")) (Some (literal "640.0"))].


(** the lines of a text, without their line ends *)
Definition lines (text : string) : list string :=
  Str.rstrip_with (λ c, Ascii.eqb c (ascii_of_N 13)) <$> Str.split (ascii_of_N 10) text.


(* ===================================================================== *)
(** * Definitions used in the proofs *)
(* ===================================================================== *)

(** ** The order of floats

    [rank] maps a float that is not [nan] into a triple whose
    lexicographic order is the order decided by [SFcompare]. *)
Definition rank (x : float) : Z * Z * Z :=
  match x with
  | S754_nan => (0, 0, 0)
  | S754_zero _ => (0, 0, 0)
  | S754_infinity true => (-2, 0, 0)
  | S754_infinity false => (2, 0, 0)
  | S754_finite true m e => (-1, - e, - Zpos m)
  | S754_finite false m e => (1, e, Zpos m)
  end.

Definition lex_lt (a b : Z * Z * Z) : Prop :=
  a.1.1 < b.1.1
  ∨ (a.1.1 = b.1.1 ∧ (a.1.2 < b.1.2 ∨ (a.1.2 = b.1.2 ∧ a.2 < b.2))).

(** ** The loops of [add_normalized] as functions of the list *)

Definition max_next (max_thr : option float) (pt : Sample) : option float :=
  match field pt "throughput" with
  | None => max_thr
  | Some t =>
      match max_thr with
      | None => Some t
      | Some m => if gtb t m then Some t else max_thr
      end
  end.

Definition normalized_value (max_thr thr : option float) : option float :=
  match max_thr, thr with
  | Some m, Some t => if truthy m then Some (div t m) else None
  | _, _ => None
  end.

Definition with_normalized (max_thr : option float) (pt : Sample) : Sample :=
  <["normalized_throughput" := normalized_value max_thr (field pt "throughput")]> pt.

(** the column [normalized_throughput] of a list of samples *)
Definition normalized_column (points : list Sample) : list (option (option float)) :=
  (λ pt : Sample, pt !! "normalized_throughput") <$> points.

(** ** Strings *)

(** every character of [s] satisfies [p] *)
Fixpoint all_chars (p : ascii -> bool) (s : string) : bool :=
  match s with
  | EmptyString => true
  | String c s' => p c && all_chars p s'
  end.

(** ** Code that only reads the dict *)

Definition read_only {A : Type} (m : dictM A) : Prop := ∀ d : Sample, (m d).1 = d.

(** the keys that [parse_point] sets *)
Definition raw_keys : list string := ["cpu_pct"; "throughput"; "latency"].

Definition well_keyed (pt : Sample) : Prop :=
  ∀ k : string, k ∈ raw_keys -> is_Some (pt !! k).

(** ** The chart order *)

(** the sort key of a sample that has the key [cpu_pct] *)
Definition key_of (pt : Sample) : float :=
  match field pt "cpu_pct" with
  | Some c => c
  | None => sentinel
  end.

(** [a] may stand before [b] in ascending order of the keys *)
Definition key_le (a b : float * Sample) : Prop := ltb b.1 a.1 = false.

(** ** How a run ends *)

(** [--output-csv] was given and the file cannot be written *)
Definition csv_fails (w : World) (args : Args) : bool :=
  match output_csv args with
  | Some path =>
      nonempty path && match open_error w path with Some _ => true | None => false end
  | None => false
  end.




(** ** The renderers as functions of one sample *)

(** the number of occurrences of [c] in [s] *)
Fixpoint count_char (c : ascii) (s : string) : nat :=
  match s with
  | EmptyString => 0%nat
  | String a s' => ((if Ascii.eqb a c then 1 else 0) + count_char c s')%nat
  end.

(** the concatenation of a list of strings *)
Fixpoint concat_all (l : list string) : string :=
  match l with
  | [] => EmptyString
  | s :: l' => s +:+ concat_all l'
  end.

(** the characters that the text of a float is made of: digits, the
    point, the signs, and the letters of [e], [inf] and [nan] *)
Definition plain_char (c : ascii) : bool :=
  Str.is_digit c
  || existsb (Ascii.eqb c) ["."; "-"; "+"; "e"; "i"; "n"; "f"; "a"]%char.

(** the list that [write_csv] passes to [writerow] for a sample *)
Definition csv_fields (pt : Sample) : list string :=
  [if_none "" repr (field pt "cpu_pct");
   if_none "" repr (sub hundred <$> field pt "cpu_pct");
   if_none "" (format_f 2) (field pt "throughput");
   if_none "" (format_f 2) (field pt "latency");
   if_none "" (format_f 4) (field pt "normalized_throughput")].

(** a row as [writerow] writes it *)
Definition csv_line (fields : list string) : string := Str.join "," fields +:+ crlf.

(** the line that [print_table] prints for a sample *)
Definition table_line (pt : Sample) : string :=
  fmt (if_none "" availability_label (field pt "cpu_pct"))
      (if_none "" (format_f 2) (field pt "throughput"))
      (if_none "" (format_f 2) (field pt "latency"))
      (if_none "" (format_f 4) (field pt "normalized_throughput")).

(** the first of the keys [cpu_pct], [throughput], [latency] that a
    sample lacks *)
Definition first_missing (pt : Sample) : option string :=
  List.find (λ k, match pt !! k with Some _ => false | None => true end) raw_keys.

(** the label and the height of the bar that [plot] draws for a sample *)
Definition label_of (pt : Sample) : string :=
  if_none "?" availability_label (field pt "cpu_pct").

Definition height_of (pt : Sample) : float :=
  if_none zero (λ n, mul n hundred) (field pt "normalized_throughput").

Definition chart_bar (pt : Sample) : Bar := annotate (label_of pt, height_of pt).

(** every bar is so low that 1.1 times its height is finite; the limit
    of the y axis, 1.1 times one of the heights or 100, then is finite
    in every order of the bars *)
Definition axis_fits (pts : list Sample) : Prop :=
  ∀ pt : Sample, pt ∈ pts -> is_finite (mul (height_of pt) one_point_one) = true.

(** ** What a run writes *)

(** the CSV text of a list of samples *)
Definition csv_text (pts : list Sample) : string :=
  csv_line csv_header +:+ concat_all ((λ pt, csv_line (csv_fields pt)) <$> pts).

(** the text of the fixed-width table of a list of samples *)
Definition table_text (pts : list Sample) : string :=
  fmt "CPU avail" "Throughput" "Latency" "NormThr" +:+ nl
  +:+ Str.repeat_char "-" 48 +:+ nl
  +:+ concat_all ((λ pt, table_line pt +:+ nl) <$> pts).

(** what the selected renderer writes on standard output *)
Definition rendering (w : World) (args : Args) (pts : list Sample) : string :=
  match format args with
  | Csv => csv_text pts
  | Json => json_dumps pts +:+ (if stdout_isatty w then "" else nl)
  | Table => table_text pts
  end.

(** the chart is asked for: no [--no-plot], and a non-empty [--plot-out] *)
Definition plot_wanted (args : Args) : bool :=
  negb (no_plot args) && nonempty (plot_out args).

(** the line on standard output that reports the chart *)
Definition plot_line (w : World) (args : Args) : string :=
  if plot_wanted args then
    match matplotlib_error w, points args, savefig_error w (plot_out args) with
    | None, _ :: _, None => "Wrote plot to " +:+ plot_out args +:+ nl
    | _, _, _ => ""
    end
  else "".

(** the note on the error stream when matplotlib cannot be imported *)
Definition plot_note (w : World) (args : Args) : string :=
  if plot_wanted args then
    match matplotlib_error w with
    | Some exc => "Plotting skipped (matplotlib unavailable): " +:+ exc +:+ nl
    | None => ""
    end
  else "".

(* ===================================================================== *)
(** * Proofs *)
(* ===================================================================== *)

(** ** Floats *)

Section FloatOrder.

Lemma compare_rank (x y : float) :
  is_nan x = false -> is_nan y = false ->
  ∃ c, SFcompare x y = Some c
       ∧ (c = Lt ↔ lex_lt (rank x) (rank y))
       ∧ (c = Gt ↔ lex_lt (rank y) (rank x)).
Proof.
  intros Hx Hy.
  destruct x as [sx|sx| |sx mx ex], y as [sy|sy| |sy my ey];
    try discriminate; clear Hx Hy.
  all: try destruct sx; try destruct sy; cbn [SFcompare rank].
  all: try change (PosDef.Pos.compare_cont Eq mx my) with (Pos.compare mx my).
  all: try (destruct (Z.compare_spec ex ey) as [He|He|He];
            [destruct (Pos.compare_spec mx my) as [Hm|Hm|Hm]| |]).
  all: eexists; (split; [reflexivity|]); unfold lex_lt; cbn;
    split; split; intros H;
    first [discriminate H | reflexivity | lia | exfalso; lia].
Qed.

Lemma lex_lt_irrefl a : ¬ lex_lt a a.
Proof. unfold lex_lt. lia. Qed.

Lemma lex_lt_trans a b c : lex_lt a b -> lex_lt b c -> lex_lt a c.
Proof. unfold lex_lt. lia. Qed.

Lemma ltb_not_nan (x y : float) :
  ltb x y = true -> is_nan x = false ∧ is_nan y = false.
Proof. destruct x, y; try discriminate; auto. Qed.

Lemma ltb_rank (x y : float) :
  is_nan x = false -> is_nan y = false ->
  ltb x y = true ↔ lex_lt (rank x) (rank y).
Proof.
  intros Hx Hy. destruct (compare_rank x y Hx Hy) as (c & Hc & Hlt & _).
  unfold ltb, SFltb. rewrite Hc. rewrite <- Hlt.
  destruct c; split; congruence.
Qed.

Lemma leb_rank (x y : float) :
  is_nan x = false -> is_nan y = false ->
  leb x y = true ↔ ¬ lex_lt (rank y) (rank x).
Proof.
  intros Hx Hy. destruct (compare_rank x y Hx Hy) as (c & Hc & _ & Hgt).
  unfold leb, SFleb. rewrite Hc. rewrite <- Hgt.
  destruct c; split; try congruence; intros H; try reflexivity.
Qed.

Lemma ltb_irrefl (x : float) : ltb x x = false.
Proof.
  destruct (ltb x x) eqn:H; [|reflexivity].
  destruct (ltb_not_nan _ _ H) as [Hx _].
  apply ltb_rank in H; auto. now apply lex_lt_irrefl in H.
Qed.

Lemma ltb_trans (x y z : float) :
  ltb x y = true -> ltb y z = true -> ltb x z = true.
Proof.
  intros Hxy Hyz.
  destruct (ltb_not_nan _ _ Hxy) as [Hx Hy].
  destruct (ltb_not_nan _ _ Hyz) as [_ Hz].
  apply ltb_rank in Hxy, Hyz; auto. apply ltb_rank; auto.
  eapply lex_lt_trans; eauto.
Qed.

Lemma ltb_asym (x y : float) : ltb x y = true -> ltb y x = false.
Proof.
  intros Hxy. destruct (ltb y x) eqn:Hyx; [|reflexivity].
  pose proof (ltb_trans _ _ _ Hxy Hyx) as H. now rewrite ltb_irrefl in H.
Qed.

(** without [nan], [not (y < x)] is [x <= y] *)
Lemma not_ltb_leb (x y : float) :
  is_nan x = false -> is_nan y = false -> ltb y x = false -> leb x y = true.
Proof.
  intros Hx Hy H. apply leb_rank; auto. intros Hlt.
  apply ltb_rank in Hlt; auto. congruence.
Qed.

Lemma leb_not_ltb (x y : float) : leb x y = true -> ltb y x = false.
Proof.
  intros H. assert (is_nan x = false ∧ is_nan y = false) as [Hx Hy]
    by (destruct x, y; try discriminate; auto).
  apply leb_rank in H; auto.
  destruct (ltb y x) eqn:E; [|reflexivity]. apply ltb_rank in E; auto. tauto.
Qed.

Lemma leb_trans (x y z : float) :
  leb x y = true -> leb y z = true -> leb x z = true.
Proof.
  intros Hxy Hyz.
  assert (is_nan x = false ∧ is_nan y = false) as [Hx Hy]
    by (destruct x, y; try discriminate; auto).
  assert (is_nan z = false) as Hz by (destruct y, z; try discriminate; auto).
  apply leb_rank in Hxy, Hyz; auto. apply leb_rank; auto.
  revert Hxy Hyz. unfold lex_lt. lia.
Qed.

End FloatOrder.

Section FloatDivision.

Lemma new_location_zero (n : Z) : new_location n 0 = loc_Exact.
Proof. unfold new_location. now destruct (Z.even n). Qed.

(** a finite float divided by itself is [1.0] *)
Lemma div_self (s : bool) (m : positive) (e : Z) :
  div (S754_finite s m e) (S754_finite s m e) = one.
Proof.
  unfold div, SFdiv, SFdiv_core_binary.
  replace (Zdigits2 (Z.pos m) + e - (Zdigits2 (Z.pos m) + e)) with 0 by lia.
  replace (e - e) with 0 by lia.
  change (Z.min (fexp prec emax 0) 0) with (-53).
  change (0 - -53) with 53.
  cbv iota beta.
  rewrite Z.shiftl_mul_pow2 by lia.
  assert (Z.div_eucl (Z.pos m * 2 ^ 53) (Z.pos m) = (2 ^ 53, 0)) as ->.
  { pose proof (Z.div_mul (2 ^ 53) (Z.pos m) ltac:(lia)) as Hq.
    pose proof (Z.mod_mul (2 ^ 53) (Z.pos m) ltac:(lia)) as Hr.
    rewrite (Z.mul_comm (Z.pos m)).
    unfold Z.div, Z.modulo in Hq, Hr.
    destruct (Z.div_eucl (2 ^ 53 * Z.pos m) (Z.pos m)). now subst. }
  rewrite new_location_zero. now destruct s.
Qed.

(** [==] on a finite non-zero float holds for that float only *)
Lemma eqb_finite_nonzero (x y : float) :
  eqb x y = true -> is_finite y = true -> truthy y = true ->
  ∃ s m e, x = S754_finite s m e ∧ y = S754_finite s m e.
Proof.
  intros Heq Hfin Hnz.
  unfold eqb, SFeqb, truthy, SFeqb in *.
  destruct x as [sx|sx| |sx mx ex], y as [sy|sy| |sy my ey];
    cbn in Heq, Hfin, Hnz; try discriminate;
    try (destruct sy; discriminate); try (destruct sx; discriminate).
  exists sy, my, ey. split; [|reflexivity].
  change (PosDef.Pos.compare_cont Eq mx my) with (Pos.compare mx my) in Heq.
  destruct sx, sy; try discriminate;
    destruct (Z.compare_spec ex ey); try discriminate;
    destruct (Pos.compare_spec mx my); try discriminate; now subst.
Qed.

End FloatDivision.

(** ** Division by a float that is not smaller *)

Section DivisionBound.

Lemma fexp_eq (t : Z) : fexp prec emax t = Z.max (t - 53) (-1074).
Proof. reflexivity. Qed.

Lemma digits2_size (p : positive) : digits2_pos p = Pos.size p.
Proof. induction p; cbn; congruence. Qed.

Lemma digits2_bounds (p : positive) :
  2 ^ (Z.pos (digits2_pos p) - 1) <= Z.pos p < 2 ^ Z.pos (digits2_pos p).
Proof.
  rewrite digits2_size. split.
  - pose proof (Pos.size_le p) as H.
    apply Pos2Z.pos_le_pos in H. rewrite Pos2Z.inj_pow in H.
    change (Z.pos p~0) with (2 * Z.pos p) in H.
    replace (Z.pos (Pos.size p)) with (Z.pos (Pos.size p) - 1 + 1) in H by lia.
    rewrite Z.pow_add_r in H by lia. change (2 ^ 1) with 2 in H. lia.
  - pose proof (Pos.size_gt p) as H.
    apply Pos2Z.pos_lt_pos in H. now rewrite Pos2Z.inj_pow in H.
Qed.

(** a number below [2^k] has at most [k] binary digits *)
Lemma Zdigits2_lt_pow (q k : Z) : 0 <= q -> 0 <= k -> q < 2 ^ k -> Zdigits2 q <= k.
Proof.
  intros Hq Hk Hlt. destruct q as [|p|p]; [cbn; lia| |lia].
  cbn [Zdigits2]. pose proof (digits2_bounds p) as [Hlo _].
  destruct (Z_le_gt_dec (Z.pos (digits2_pos p)) k) as [|Hgt]; [assumption|].
  assert (2 ^ k <= 2 ^ (Z.pos (digits2_pos p) - 1)) by (apply Z.pow_le_mono_r; lia).
  lia.
Qed.

Lemma Zdigits2_le_pow (q k : Z) : 0 <= q -> 0 <= k -> q <= 2 ^ k -> Zdigits2 q <= k + 1.
Proof.
  intros Hq Hk Hle. apply Zdigits2_lt_pow; [lia|lia|].
  rewrite Z.pow_add_r by lia. lia.
Qed.

Lemma shr_1_m (mrs : shr_record) :
  0 <= shr_m mrs -> shr_m (shr_1 mrs) = shr_m mrs / 2.
Proof.
  destruct mrs as [m r s]. cbn [shr_m]. intros Hm.
  rewrite <- Z.div2_div. destruct m as [|[p|p|]|p]; try reflexivity; lia.
Qed.

Lemma iter_shr_m (n : positive) (mrs : shr_record) :
  0 <= shr_m mrs ->
  shr_m (SpecFloat.iter_pos shr_1 n mrs) = shr_m mrs / 2 ^ Z.pos n.
Proof.
  revert mrs. induction n as [n IH|n IH|]; intros mrs Hm; cbn [SpecFloat.iter_pos].
  - assert (0 <= shr_m (shr_1 mrs)) as H1 by (rewrite shr_1_m by lia; apply Z.div_pos; lia).
    assert (0 <= shr_m (SpecFloat.iter_pos shr_1 n (shr_1 mrs))) as H2
      by (rewrite IH by lia; apply Z.div_pos; lia).
    rewrite IH, IH, shr_1_m by lia.
    assert (0 < 2 ^ Z.pos n) as Hp by (apply Z.pow_pos_nonneg; lia).
    rewrite !Z.div_div by lia. f_equal.
    rewrite Pos2Z.inj_xI.
    replace (2 * Z.pos n + 1) with (1 + Z.pos n + Z.pos n) by lia.
    rewrite !Z.pow_add_r by lia. change (2 ^ 1) with 2. ring.
  - assert (0 <= shr_m (SpecFloat.iter_pos shr_1 n mrs)) as H2
      by (rewrite IH by lia; apply Z.div_pos; lia).
    assert (0 < 2 ^ Z.pos n) as Hp by (apply Z.pow_pos_nonneg; lia).
    rewrite IH, IH by lia. rewrite Z.div_div by lia. f_equal.
    rewrite <- Z.pow_add_r by lia. f_equal. lia.
  - rewrite shr_1_m by lia. reflexivity.
Qed.

Lemma shr_record_of_loc_m (m : Z) (l : location) : shr_m (shr_record_of_loc m l) = m.
Proof. destruct l as [|[]]; reflexivity. Qed.

(** [shr_fexp] divides the mantissa by a power of two and adds its
    exponent to [e] *)
Lemma shr_fexp_spec (m e : Z) (l : location) :
  0 <= m ->
  let n := Z.max 0 (fexp prec emax (Zdigits2 m + e) - e) in
  shr_m (shr_fexp prec emax m e l).1 = m / 2 ^ n
  ∧ (shr_fexp prec emax m e l).2 = e + n.
Proof.
  intros Hm n. unfold shr_fexp, shr. subst n.
  destruct (fexp prec emax (Zdigits2 m + e) - e) as [|p|p] eqn:E; cbn [fst snd].
  - rewrite shr_record_of_loc_m. change (Z.max 0 0) with 0.
    rewrite Z.div_1_r. lia.
  - rewrite iter_shr_m by (rewrite shr_record_of_loc_m; lia).
    rewrite shr_record_of_loc_m. replace (Z.max 0 (Z.pos p)) with (Z.pos p) by lia.
    split; [reflexivity|lia].
  - rewrite shr_record_of_loc_m. replace (Z.max 0 (Z.neg p)) with 0 by lia.
    rewrite Z.div_1_r. lia.
Qed.

Lemma round_nearest_even_bounds (m : Z) (l : location) :
  m <= round_nearest_even m l <= m + 1.
Proof. destruct l as [|[]]; cbn; try lia. destruct (Z.even m); lia. Qed.

(** One step of [binary_round_aux]: a mantissa at most [2^(-e)] at an
    exponent [e <= -52] is brought to a mantissa at most [2^(-e')] at an
    exponent [e <= e' <= -52]. *)
Lemma shr_fexp_below_one (m e : Z) (l : location) :
  0 <= m -> e <= -52 -> m <= 2 ^ (- e) ->
  let r := shr_fexp prec emax m e l in
  0 <= shr_m r.1 ∧ r.2 <= -52 ∧ shr_m r.1 <= 2 ^ (- r.2)
  ∧ (m < 2 ^ (- e) -> shr_m r.1 < 2 ^ (- r.2)).
Proof.
  intros Hm He Hle r. subst r.
  destruct (shr_fexp_spec m e l Hm) as [-> ->].
  set (n := Z.max 0 (fexp prec emax (Zdigits2 m + e) - e)).
  assert (0 <= n) as Hn by (unfold n; lia).
  assert (e + n <= -52) as He'.
  { pose proof (Zdigits2_le_pow m (- e) Hm ltac:(lia) Hle) as Hd.
    unfold n. rewrite fexp_eq. lia. }
  assert (2 ^ (- e) = 2 ^ n * 2 ^ (- (e + n))) as Hpow.
  { rewrite <- Z.pow_add_r by lia. f_equal. lia. }
  assert (0 < 2 ^ n) as Hpos by (apply Z.pow_pos_nonneg; lia).
  split; [apply Z.div_pos; lia|]. split; [exact He'|]. split.
  - apply Z.div_le_upper_bound; [exact Hpos|]. now rewrite <- Hpow.
  - intros Hlt. apply Z.div_lt_upper_bound; [exact Hpos|]. now rewrite <- Hpow.
Qed.

(** rounding a quotient that is below one gives zero or a finite float
    that is at most one *)
Lemma binary_round_aux_below_one (q e : Z) (l : location) :
  0 <= q -> e <= -52 -> q < 2 ^ (- e) ->
  binary_round_aux prec emax false q e l = S754_zero false
  ∨ ∃ (m : positive) (e' : Z),
      binary_round_aux prec emax false q e l = S754_finite false m e'
      ∧ e' <= -52 ∧ Z.pos m <= 2 ^ (- e').
Proof.
  intros Hq He Hlt. unfold binary_round_aux.
  destruct (shr_fexp_below_one q e l Hq He ltac:(lia)) as (H0 & He1 & _ & Hlt1).
  specialize (Hlt1 Hlt).
  destruct (shr_fexp prec emax q e l) as [mrs1 e1]. cbn [fst snd] in *.
  pose proof (round_nearest_even_bounds (shr_m mrs1) (loc_of_shr_record mrs1)) as Hr.
  set (m2 := round_nearest_even (shr_m mrs1) (loc_of_shr_record mrs1)) in *.
  destruct (shr_fexp_below_one m2 e1 loc_Exact ltac:(lia) He1 ltac:(lia))
    as (H3 & He2 & Hle2 & _).
  destruct (shr_fexp prec emax m2 e1 loc_Exact) as [mrs2 e2]. cbn [fst snd] in *.
  destruct (shr_m mrs2) as [|m|m]; [now left| |lia].
  right. exists m, e2.
  replace (e2 <=? emax - prec) with true; [auto|].
  symmetry. apply Z.leb_le. change (emax - prec) with 971. lia.
Qed.


Lemma bounded_inv (m : positive) (e : Z) :
  bounded prec emax m e = true ->
  Z.pos (digits2_pos m) <= 53 ∧ -1074 <= e
  ∧ (-1074 < e -> Z.pos (digits2_pos m) = 53).
Proof.
  unfold bounded, canonical_mantissa. intros H.
  apply andb_true_iff in H as [H _]. apply Z.eqb_eq in H.
  rewrite fexp_eq in H. lia.
Qed.

(** the quotient and the exponent that [SFdiv] rounds *)
Lemma div_core_spec (mx : positive) (ex : Z) (my : positive) (ey : Z) :
  let e' := Z.min (fexp prec emax (Zdigits2 (Z.pos mx) + ex - (Zdigits2 (Z.pos my) + ey)))
                  (ex - ey) in
  ∃ l, SFdiv_core_binary prec emax (Z.pos mx) ex (Z.pos my) ey
       = (Z.pos mx * 2 ^ (ex - ey - e') / Z.pos my, e', l).
Proof.
  intros e'. unfold SFdiv_core_binary. fold e'.
  assert (0 <= ex - ey - e') as Hs by (unfold e'; lia).
  set (m' := match ex - ey - e' with
             | 0 => Z.pos mx
             | Z.pos _ => Z.shiftl (Z.pos mx) (ex - ey - e')
             | Z.neg _ => 0
             end).
  assert (m' = Z.pos mx * 2 ^ (ex - ey - e')) as ->.
  { unfold m'. destruct (ex - ey - e') as [|p|p] eqn:E.
    - rewrite Z.pow_0_r. lia.
    - now rewrite Z.shiftl_mul_pow2 by lia.
    - lia. }
  unfold Z.div. destruct (Z.div_eucl _ _) as [q r]. eexists. reflexivity.
Qed.

(** a positive binary64 value divided by one that is not smaller is at
    least zero and at most one *)
Lemma div_below_one (mx : positive) (ex : Z) (my : positive) (ey : Z) :
  bounded prec emax mx ex = true -> bounded prec emax my ey = true ->
  leb (S754_finite false mx ex) (S754_finite false my ey) = true ->
  leb zero (div (S754_finite false mx ex) (S754_finite false my ey)) = true
  ∧ leb (div (S754_finite false mx ex) (S754_finite false my ey)) one = true.
Proof.
  intros Hbx Hby Hle.
  apply leb_rank in Hle; [|reflexivity|reflexivity].
  unfold lex_lt in Hle. cbn in Hle.
  assert (ex < ey ∨ (ex = ey ∧ Z.pos mx <= Z.pos my)) as Hord by lia. clear Hle.
  destruct (decide (ex = ey ∧ mx = my)) as [[-> ->]|Hne].
  { rewrite div_self. split; reflexivity. }
  destruct (bounded_inv _ _ Hbx) as (Hdx & Hex & Hnx).
  destruct (bounded_inv _ _ Hby) as (Hdy & Hey & Hny).
  pose proof (digits2_bounds mx) as [Hmx_lo Hmx_hi].
  pose proof (digits2_bounds my) as [Hmy_lo Hmy_hi].
  set (d1 := Z.pos (digits2_pos mx)) in *. set (d2 := Z.pos (digits2_pos my)) in *.
  assert (d1 + ex <= d2 + ey) as Hdig.
  { destruct Hord as [Hlt|[-> Hm]]; [specialize (Hny ltac:(lia)); lia|].
    destruct (Z_le_gt_dec d1 d2) as [|Hgt]; [lia|].
    assert (2 ^ d2 <= 2 ^ (d1 - 1)) by (apply Z.pow_le_mono_r; lia). lia. }
  unfold div, SFdiv.
  destruct (div_core_spec mx ex my ey) as [l ->]. cbn [Zdigits2]. fold d1 d2.
  set (e' := Z.min (fexp prec emax (d1 + ex - (d2 + ey))) (ex - ey)).
  assert (e' <= -53) as He' by (unfold e'; rewrite fexp_eq; lia).
  assert (0 <= ex - ey - e') as Hs by (unfold e'; lia).
  set (s := ex - ey - e') in *.
  assert (0 < 2 ^ s) as Hps by (apply Z.pow_pos_nonneg; lia).
  assert (Z.pos mx * 2 ^ s < Z.pos my * 2 ^ (- e')) as Hlt.
  { destruct Hord as [Hlt|[-> Hm]].
    - specialize (Hny ltac:(lia)).
      replace (- e') with ((ey - ex) + s) by (unfold s; lia).
      rewrite Z.pow_add_r by lia. rewrite Z.mul_assoc.
      apply Z.mul_lt_mono_pos_r; [exact Hps|].
      assert (2 ^ 1 <= 2 ^ (ey - ex)) as H2 by (apply Z.pow_le_mono_r; lia).
      change (2 ^ 1) with 2 in H2.
      assert (2 ^ d1 <= 2 ^ 53) as H3 by (apply Z.pow_le_mono_r; lia).
      rewrite Hny in Hmy_lo. change (2 ^ (53 - 1)) with 4503599627370496 in Hmy_lo.
      change (2 ^ 53) with 9007199254740992 in H3.
      assert (Z.pos my * 2 <= Z.pos my * 2 ^ (ey - ex))
        by (apply Z.mul_le_mono_nonneg_l; lia).
      lia.
    - replace (- e') with s by (unfold s; lia).
      apply Z.mul_lt_mono_pos_r; [exact Hps|].
      assert (mx ≠ my) by (intros ->; apply Hne; auto). lia. }
  assert (0 <= Z.pos mx * 2 ^ s / Z.pos my) as Hq by (apply Z.div_pos; lia).
  assert (Z.pos mx * 2 ^ s / Z.pos my < 2 ^ (- e')) as Hq'
    by (apply Z.div_lt_upper_bound; lia).
  change (xorb false false) with false.
  destruct (binary_round_aux_below_one _ e' l Hq ltac:(lia) Hq')
    as [->|(m & e2 & -> & He2 & Hm)]; [split; reflexivity|].
  split; [reflexivity|].
  apply leb_rank; [reflexivity|reflexivity|].
  unfold lex_lt. cbn.
  assert (e2 = -52 -> Z.pos m <= 4503599627370496) by (intros ->; exact Hm).
  lia.
Qed.

(** a throughput that is not negative, divided by a finite non-zero
    maximum that no throughput exceeds, lies between zero and one *)
Lemma ratio_in_unit_interval (t m : float) :
  valid t = true -> valid m = true ->
  is_finite m = true -> truthy m = true ->
  leb zero t = true -> gtb t m = false ->
  leb zero (div t m) = true ∧ leb (div t m) one = true.
Proof.
  intros Hvt Hvm Hfin Hnz Hpos Hmax.
  assert (is_nan t = false) as Hnt by (destruct t; [| |discriminate|]; reflexivity).
  assert (is_nan m = false) as Hnm by (destruct m; [| |discriminate|]; reflexivity).
  assert (leb t m = true) as Hle by (apply not_ltb_leb; assumption).
  destruct m as [sm|sm| |sm my ey]; try discriminate.
  destruct t as [st|st| |st mx ex]; try discriminate.
  - destruct st, sm; split; reflexivity.
  - destruct st; [discriminate Hpos|]. destruct sm; discriminate Hle.
  - destruct st; [discriminate Hpos|]. destruct sm; [discriminate Hle|].
    apply div_below_one; auto.
Qed.

End DivisionBound.

(** ** The normalizer *)

Section Normalizer.

Implicit Types (pt : Sample) (pts : list Sample) (mx : option float).

Lemma max_step_run mx pt : max_step mx pt = (pt, Ok (max_next mx pt)).
Proof.
  unfold max_step, max_next, mbind, dictM_bind, get.
  destruct (field pt "throughput") as [t|]; [|reflexivity].
  destruct mx as [m|]; [|reflexivity]. now destruct (gtb t m).
Qed.

Lemma for_points_max pts mx :
  for_points max_step pts mx = (pts, fold_left max_next pts mx, Ok tt).
Proof.
  revert mx. induction pts as [|pt pts IH]; intros mx; [reflexivity|].
  cbn [for_points fold_left]. now rewrite max_step_run, IH.
Qed.

Lemma max_throughput_fold pts : max_throughput pts = fold_left max_next pts None.
Proof. unfold max_throughput. now rewrite for_points_max. Qed.

Lemma truediv_truthy (t m : float) : truthy m = true -> truediv t m = Ok (div t m).
Proof.
  unfold truthy, truediv, eqb. intros H. apply negb_true_iff in H. now rewrite H.
Qed.

Lemma normalize_point_run mx pt :
  normalize_point mx tt pt = (with_normalized mx pt, Ok tt).
Proof.
  unfold normalize_point, with_normalized, normalized_value, mbind, dictM_bind, get.
  destruct mx as [m|]; [|reflexivity].
  destruct (field pt "throughput") as [t|]; [|reflexivity].
  destruct (truthy m) eqn:Hm; [|reflexivity].
  unfold lift. now rewrite truediv_truthy.
Qed.

Lemma for_points_normalize mx pts :
  for_points (normalize_point mx) pts tt = (with_normalized mx <$> pts, tt, Ok tt).
Proof.
  induction pts as [|pt pts IH]; [reflexivity|].
  cbn [for_points]. now rewrite normalize_point_run, IH.
Qed.

(** [add_normalized] never raises, and stores in each sample the value
    computed from its throughput and the maximum *)
Lemma add_normalized_eq pts :
  add_normalized pts = (with_normalized (max_throughput pts) <$> pts, Ok tt).
Proof.
  unfold add_normalized. rewrite max_throughput_fold, for_points_max.
  now rewrite for_points_normalize.
Qed.

Lemma throughputs_cons pt pts :
  throughputs (pt :: pts) =
  match field pt "throughput" with
  | Some t => t :: throughputs pts
  | None => throughputs pts
  end.
Proof. reflexivity. Qed.

Lemma fold_max_some pts (a : float) :
  ∃ m, fold_left max_next pts (Some a) = Some m
       ∧ (m = a ∨ ltb a m = true)
       ∧ (m = a ∨ m ∈ throughputs pts)
       ∧ ∀ t, t ∈ throughputs pts -> gtb t m = false.
Proof.
  revert a. induction pts as [|pt pts IH]; intros a.
  - exists a. repeat split; auto. intros t Ht. inversion Ht.
  - cbn [fold_left]. rewrite throughputs_cons. unfold max_next at 2.
    destruct (field pt "throughput") as [t|].
    + destruct (gtb t a) eqn:Hta.
      * destruct (IH t) as (m & Hm & Hge & Hin & Hmax). exists m.
        split; [exact Hm|]. split; [|split].
        -- right. destruct Hge as [->|Hge]; [exact Hta|].
           eapply ltb_trans; eauto.
        -- right. destruct Hin as [->|Hin]; [left|right; exact Hin].
        -- intros u Hu. apply elem_of_cons in Hu as [Hu|Hu]; [subst u|auto].
           unfold gtb. destruct Hge as [->|Hge]; [apply ltb_irrefl|].
           now apply ltb_asym.
      * destruct (IH a) as (m & Hm & Hge & Hin & Hmax). exists m.
        split; [exact Hm|]. split; [exact Hge|]. split.
        -- destruct Hin as [->|Hin]; [now left|right; now right].
        -- intros u Hu. apply elem_of_cons in Hu as [Hu|Hu]; [subst u|auto].
           destruct Hge as [->|Hge]; [exact Hta|].
           unfold gtb in *. destruct (ltb m t) eqn:Hmu; [|exact Hmu].
           pose proof (ltb_trans _ _ _ Hge Hmu) as H. unfold ltb in H. congruence.
    + destruct (IH a) as (m & Hm & Hge & Hin & Hmax). now exists m.
Qed.

(** the maximum is one of the throughputs, and none is greater *)
Lemma max_throughput_spec pts :
  match max_throughput pts with
  | None => throughputs pts = []
  | Some m => m ∈ throughputs pts ∧ ∀ t, t ∈ throughputs pts -> gtb t m = false
  end.
Proof.
  rewrite max_throughput_fold.
  induction pts as [|pt pts IH]; [reflexivity|].
  cbn [fold_left]. rewrite throughputs_cons. unfold max_next at 2.
  destruct (field pt "throughput") as [t|]; [|exact IH].
  destruct (fold_max_some pts t) as (m & -> & Hge & Hin & Hmax). split.
  - destruct Hin as [->|Hin]; [left|now right].
  - intros u Hu. apply elem_of_cons in Hu as [Hu|Hu]; [subst u|auto].
    unfold gtb. destruct Hge as [->|Hge]; [apply ltb_irrefl|now apply ltb_asym].
Qed.

Lemma field_with_normalized mx pt k :
  k ≠ "normalized_throughput" -> field (with_normalized mx pt) k = field pt k.
Proof.
  intros Hk. unfold field, with_normalized. now rewrite lookup_insert_ne.
Qed.

Lemma lookup_with_normalized mx pt :
  with_normalized mx pt !! "normalized_throughput"
  = Some (normalized_value mx (field pt "throughput")).
Proof. unfold with_normalized. apply lookup_insert_eq. Qed.

Lemma max_next_with_normalized mx mx' pt :
  max_next mx' (with_normalized mx pt) = max_next mx' pt.
Proof. unfold max_next. now rewrite field_with_normalized. Qed.

Lemma max_throughput_normalized mx pts :
  max_throughput (with_normalized mx <$> pts) = max_throughput pts.
Proof.
  rewrite !max_throughput_fold. generalize (@None float).
  induction pts as [|pt pts IH]; intros acc; [reflexivity|].
  cbn [fmap list_fmap fold_left]. rewrite max_next_with_normalized. apply IH.
Qed.

Lemma with_normalized_idem mx pt :
  with_normalized mx (with_normalized mx pt) = with_normalized mx pt.
Proof.
  unfold with_normalized at 1. rewrite field_with_normalized by discriminate.
  unfold with_normalized. apply insert_insert_eq.
Qed.

End Normalizer.

(** C1.  For every list of samples, [add_normalized] returns without an
    exception and stores under [normalized_throughput], in each sample,
    [throughput / max_throughput], where [max_throughput] is the maximum
    of the throughputs that are not [None] (one of them, and none is
    greater; without [nan] every throughput is [<=] it); the stored value
    is [None] when there is no maximum, when the maximum is falsy, or when
    the throughput of the sample is [None].  Throughputs
    [100000, 82000, None] give [1.0, 0.82, None], and a list whose
    throughputs are all [None] gets [None] everywhere. *)
Theorem add_normalized_sets_ratio :
  (∀ points : list Sample,
     ∃ points' : list Sample,
       add_normalized points = (points', Ok tt)
       ∧ length points' = length points
       ∧ match max_throughput points with
         | None => throughputs points = []
         | Some m =>
             m ∈ throughputs points
             ∧ (∀ t, t ∈ throughputs points -> gtb t m = false)
             ∧ ((∀ t, t ∈ throughputs points -> is_nan t = false) ->
                ∀ t, t ∈ throughputs points -> leb t m = true)
         end
       ∧ (∀ (i : nat) (pt : Sample), points !! i = Some pt ->
            ∃ pt' : Sample, points' !! i = Some pt'
              ∧ pt' !! "normalized_throughput" =
                Some match max_throughput points, field pt "throughput" with
                     | Some m, Some thr => if truthy m then Some (div thr m) else None
                     | _, _ => None
                     end)
       ∧ (throughputs points = [] ->
            ∀ pt' : Sample, pt' ∈ points' -> pt' !! "normalized_throughput" = Some None))
  ∧ (∀ c1 l1 c2 l2 c3 l3 : option float,
       normalized_column
         (add_normalized [sample c1 (Some (literal "100000")) l1;
                          sample c2 (Some (literal "82000")) l2;
                          sample c3 None l3]).1
       = [Some (Some (literal "1.0")); Some (Some (literal "0.82")); Some None]).
Proof.
  split.
  - intros points. exists (with_normalized (max_throughput points) <$> points).
    split; [apply add_normalized_eq|]. split; [apply length_fmap|].
    split; [|split].
    + pose proof (max_throughput_spec points) as H.
      destruct (max_throughput points) as [m|]; [|exact H].
      destruct H as [Hin Hmax]. split; [exact Hin|]. split; [exact Hmax|].
      intros Hnan t Ht. apply not_ltb_leb; auto. apply Hmax, Ht.
    + intros i pt Hi. exists (with_normalized (max_throughput points) pt).
      split; [rewrite list_lookup_fmap, Hi; reflexivity|].
      rewrite lookup_with_normalized. reflexivity.
    + intros Hnone pt' Hin. apply list_elem_of_fmap in Hin as (pt & -> & Hpt).
      rewrite lookup_with_normalized. f_equal.
      pose proof (max_throughput_spec points) as H.
      destruct (max_throughput points) as [m|]; [|reflexivity].
      destruct H as [Hm _]. rewrite Hnone in Hm. inversion Hm.
  - intros. rewrite add_normalized_eq. vm_compute. reflexivity.
Qed.

(** the theorem of C1 at the list of the two samples ["0,100000.0,620.0"]
    and ["25,N/A,640.0"] *)
Lemma add_normalized_sets_ratio_witness :
  ∃ points' : list Sample,
    add_normalized [sample (Some zero) (Some (literal "100000.0")) (Some (literal "620.0"));
                    sample (Some (literal "25")) None (Some (literal "640.0"))]
    = (points', Ok tt)
    ∧ normalized_column points' = [Some (Some one); Some None].
Proof.
  destruct (proj1 add_normalized_sets_ratio
              [sample (Some zero) (Some (literal "100000.0")) (Some (literal "620.0"));
               sample (Some (literal "25")) None (Some (literal "640.0"))])
    as (points' & Heq & _).
  exists points'. split; [exact Heq|].
  rewrite add_normalized_eq in Heq. injection Heq as <-. vm_compute. reflexivity.
Defined.

(** C7.  [add_normalized] is idempotent: a second call on the list left
    by the first one leaves the same list, returns in the same way, and
    so stores the same [normalized_throughput] values. *)
Theorem add_normalized_idempotent (points : list Sample) :
  add_normalized (add_normalized points).1 = add_normalized points
  ∧ normalized_column (add_normalized (add_normalized points).1).1
    = normalized_column (add_normalized points).1.
Proof.
  assert (add_normalized (add_normalized points).1 = add_normalized points) as H.
  { rewrite !add_normalized_eq. cbn [fst]. rewrite max_throughput_normalized.
    f_equal. rewrite <- list_fmap_compose. apply list_fmap_ext.
    intros i pt _. cbn. apply with_normalized_idem. }
  split; [exact H|]. now rewrite H.
Qed.

(** C10, as amended.  After [add_normalized] the key
    [normalized_throughput] is present in every sample, and whenever the
    maximum is defined, finite and not zero, every sample whose throughput
    equals the maximum has [normalized_throughput] exactly [1.0]; this
    includes a negative maximum: throughputs [-5, -10] give [1.0, 2.0]. *)
Theorem normalized_present_and_one_at_max :
  (∀ points : list Sample,
     ∃ points' : list Sample,
       add_normalized points = (points', Ok tt)
       ∧ (∀ pt' : Sample, pt' ∈ points' -> is_Some (pt' !! "normalized_throughput"))
       ∧ (∀ m : float,
            max_throughput points = Some m -> is_finite m = true -> truthy m = true ->
            ∀ (i : nat) (pt : Sample) (thr : float),
              points !! i = Some pt -> field pt "throughput" = Some thr ->
              eqb thr m = true ->
              ∃ pt' : Sample, points' !! i = Some pt'
                ∧ pt' !! "normalized_throughput" = Some (Some one)))
  ∧ (∀ c1 l1 c2 l2 : option float,
       normalized_column
         (add_normalized [sample c1 (Some (literal "-5")) l1;
                          sample c2 (Some (literal "-10")) l2]).1
       = [Some (Some one); Some (Some two)]).
Proof.
  split.
  - intros points. exists (with_normalized (max_throughput points) <$> points).
    split; [apply add_normalized_eq|]. split.
    + intros pt' Hin. apply list_elem_of_fmap in Hin as (pt & -> & _).
      rewrite lookup_with_normalized. eauto.
    + intros m Hm Hfin Hnz i pt thr Hi Hthr Heq.
      exists (with_normalized (max_throughput points) pt).
      split; [rewrite list_lookup_fmap, Hi; reflexivity|].
      rewrite lookup_with_normalized, Hm, Hthr. cbn. rewrite Hnz.
      destruct (eqb_finite_nonzero _ _ Heq Hfin Hnz) as (s & mm & e & -> & ->).
      now rewrite div_self.
  - intros. rewrite add_normalized_eq. vm_compute. reflexivity.
Qed.

(** the theorem of C10 at the samples of ["0,-5,1"] and ["1,-10,1"] *)
Lemma normalized_present_and_one_at_max_witness :
  ∃ pt' : Sample,
    (add_normalized [sample (Some zero) (Some (literal "-5")) (Some one);
                     sample (Some one) (Some (literal "-10")) (Some one)]).1 !! 0%nat
    = Some pt'
    ∧ pt' !! "normalized_throughput" = Some (Some one).
Proof.
  destruct (proj1 normalized_present_and_one_at_max
              [sample (Some zero) (Some (literal "-5")) (Some one);
               sample (Some one) (Some (literal "-10")) (Some one)])
    as (points' & Heq & _ & Hone).
  destruct (Hone (literal "-5") ltac:(vm_compute; reflexivity) eq_refl eq_refl
              0%nat _ (literal "-5") eq_refl ltac:(vm_compute; reflexivity) eq_refl)
    as (pt' & Hpt' & Hnorm).
  exists pt'. rewrite Heq. split; [exact Hpt'|exact Hnorm].
Defined.

(** C10 as stated fails when the maximum is infinite: the token
    ["0,inf,1"] parses to a sample whose throughput is [inf], so the
    maximum is [inf], defined and truthy, the throughput equals it, and
    the value stored is [inf / inf = nan], not [1.0]. *)
Lemma infinite_max_is_not_normalized_to_one :
  ∃ pt : Sample,
    parse_point "0,inf,1" = Ok pt
    ∧ field pt "throughput" = Some inf
    ∧ max_throughput [pt] = Some inf
    ∧ truthy inf = true
    ∧ eqb inf inf = true
    ∧ normalized_column (add_normalized [pt]).1 = [Some (Some nan)]
    ∧ nan ≠ one.
Proof.
  exists (sample (Some zero) (Some inf) (Some one)).
  split; [vm_compute; reflexivity|].
  split; [vm_compute; reflexivity|].
  split; [vm_compute; reflexivity|].
  split; [reflexivity|].
  split; [reflexivity|].
  split; [vm_compute; reflexivity|discriminate].
Qed.

(** ** Reading and writing samples *)

Section Frames.

Lemma read_only_getitem k : read_only (getitem k).
Proof. intros d. reflexivity. Qed.

Lemma read_only_get k : read_only (get k).
Proof. intros d. reflexivity. Qed.

Lemma read_only_mret {A} (a : A) : read_only (mret a).
Proof. intros d. reflexivity. Qed.

Lemma read_only_bind {A B} (m : dictM A) (k : A -> dictM B) :
  read_only m -> (∀ a, read_only (k a)) -> read_only (m ≫= k).
Proof.
  intros Hm Hk d. unfold mbind, dictM_bind. specialize (Hm d).
  destruct (m d) as [d' [a|e]]; cbn in Hm; subst d'; [apply Hk|reflexivity].
Qed.

Lemma for_points_read_only {St} (body : St -> dictM St) pts (st : St) :
  (∀ st, read_only (body st)) -> (for_points body pts st).1.1 = pts.
Proof.
  intros Hbody. revert st. induction pts as [|pt pts IH]; intros st; [reflexivity|].
  cbn [for_points]. specialize (Hbody st pt).
  destruct (body st pt) as [pt' [st'|e]]; cbn in Hbody; subst pt'; [|reflexivity].
  specialize (IH st'). destruct (for_points body pts st') as [[pts' st''] r].
  cbn in *. now subst.
Qed.

Lemma read_only_csv_row : read_only csv_row.
Proof.
  unfold csv_row.
  repeat (apply read_only_bind; [first [apply read_only_getitem | apply read_only_get]|intros]).
  apply read_only_mret.
Qed.

Lemma read_only_table_row : read_only table_row.
Proof.
  unfold table_row.
  repeat (apply read_only_bind; [first [apply read_only_getitem | apply read_only_get]|intros]).
  apply read_only_mret.
Qed.

Lemma write_csv_reads points fh : (write_csv points fh).1.1 = points.
Proof.
  apply for_points_read_only. intros st.
  apply read_only_bind; [apply read_only_csv_row|intros; apply read_only_mret].
Qed.

Lemma print_table_reads points out : (print_table points out).1.1 = points.
Proof.
  apply for_points_read_only. intros st.
  apply read_only_bind; [apply read_only_table_row|intros; apply read_only_mret].
Qed.

Lemma output_csv_step_reads w args pts o : (output_csv_step w args pts o).1.1 = pts.
Proof.
  unfold output_csv_step.
  destruct (output_csv args) as [path|]; [|reflexivity].
  destruct (nonempty path); [|reflexivity].
  destruct (open_error w path); [reflexivity|].
  pose proof (write_csv_reads pts "") as H.
  destruct (write_csv pts "") as [[pts' text] [[]|e]]; exact H.
Qed.

Lemma format_step_reads w args pts o : (format_step w args pts o).1.1 = pts.
Proof.
  unfold format_step. destruct (format args); [| reflexivity |].
  - pose proof (write_csv_reads pts (stdout o)) as H.
    destruct (write_csv pts (stdout o)) as [[pts' text] [[]|e]]; exact H.
  - pose proof (print_table_reads pts (stdout o)) as H.
    destruct (print_table pts (stdout o)) as [[pts' text] [[]|e]]; exact H.
Qed.

Lemma plot_step_reads w args pts o : (plot_step w args pts o).1.1 = pts.
Proof.
  unfold plot_step. destruct (negb (no_plot args) && nonempty (plot_out args)); [|reflexivity].
  now destruct (plot w pts (plot_out args) o) as [o' [b|e]].
Qed.

(** after parsing, the list that [main] holds at its end is the parsed
    list with [normalized_throughput] added *)
Lemma run_main_points w args pts :
  for_each parse_point (points args) = Ok pts ->
  (run_main w args).1.1 = with_normalized (max_throughput pts) <$> pts.
Proof.
  intros Hparse. unfold run_main. rewrite Hparse, add_normalized_eq.
  set (pts1 := with_normalized (max_throughput pts) <$> pts).
  unfold and_then.
  pose proof (output_csv_step_reads w args pts1 no_output) as H1.
  destruct (output_csv_step w args pts1 no_output) as [[pts2 o2] [r|]];
    cbn in H1; subst pts2; [reflexivity|].
  pose proof (format_step_reads w args pts1 o2) as H2.
  destruct (format_step w args pts1 o2) as [[pts3 o3] [r|]];
    cbn in H2; subst pts3; [reflexivity|].
  pose proof (plot_step_reads w args pts1 o3) as H3.
  destruct (plot_step w args pts1 o3) as [[pts4 o4] [r|]];
    cbn in H3; subst pts4; reflexivity.
Qed.

End Frames.

(** C6.  The fields [cpu_pct], [throughput] and [latency] are never
    changed after parsing: [add_normalized] keeps the length of the list
    and every key of every sample other than [normalized_throughput];
    [write_csv] and [print_table] leave the list as they got it; and at
    the end of [main] every sample still maps every key other than
    [normalized_throughput] as [parse_point] set it. *)
Theorem raw_fields_never_mutated :
  (∀ (points points' : list Sample) (r : result unit),
     add_normalized points = (points', r) ->
     length points' = length points
     ∧ ∀ (i : nat) (pt pt' : Sample) (k : string),
         points !! i = Some pt -> points' !! i = Some pt' ->
         k ≠ "normalized_throughput" -> pt' !! k = pt !! k)
  ∧ (∀ (points : list Sample) (fh : string), (write_csv points fh).1.1 = points)
  ∧ (∀ (points : list Sample) (out : string), (print_table points out).1.1 = points)
  ∧ (∀ (w : World) (args : Args) (parsed : list Sample),
       for_each parse_point (points args) = Ok parsed ->
       length (run_main w args).1.1 = length parsed
       ∧ ∀ (i : nat) (pt pt' : Sample) (k : string),
           parsed !! i = Some pt -> (run_main w args).1.1 !! i = Some pt' ->
           k ≠ "normalized_throughput" -> pt' !! k = pt !! k).
Proof.
  assert (∀ mx (pts : list Sample),
            length (with_normalized mx <$> pts) = length pts
            ∧ ∀ (i : nat) (pt pt' : Sample) (k : string),
                pts !! i = Some pt -> (with_normalized mx <$> pts) !! i = Some pt' ->
                k ≠ "normalized_throughput" -> pt' !! k = pt !! k) as Hframe.
  { intros mx pts. split; [apply length_fmap|].
    intros i pt pt' k Hi Hi' Hk. rewrite list_lookup_fmap, Hi in Hi'.
    injection Hi' as <-. unfold with_normalized. now rewrite lookup_insert_ne. }
  split; [|split; [|split]].
  - intros points points' r Heq. rewrite add_normalized_eq in Heq.
    injection Heq as <- _. apply Hframe.
  - apply write_csv_reads.
  - apply print_table_reads.
  - intros w args parsed Hparse. rewrite (run_main_points w args parsed Hparse).
    apply Hframe.
Qed.

(** the theorem of C6 at the run of the end-to-end scenario *)
Lemma raw_fields_never_mutated_witness :
  length (run_main fair_world scenario).1.1 = 2%nat.
Proof.
  exact (proj1 (proj2 (proj2 (proj2 raw_fields_never_mutated)) fair_world scenario
                 [sample (Some zero) (Some (literal "100000.0")) (Some (literal "620.0"));
                  sample (Some (literal "25")) (Some (literal "82000.0"))
                    (Some (literal "640.0"))]
                 ltac:(vm_compute; reflexivity))).
Defined.

(** ** The point parser *)

Section Parser.

Import Str.

Lemma lstrip_all (sp : ascii -> bool) (a : string) :
  all_chars sp a = true -> lstrip_with sp a = "".
Proof.
  induction a as [|c a IH]; cbn; [reflexivity|].
  intros H. apply andb_true_iff in H as [-> Ha]. auto.
Qed.

Lemma rstrip_all (sp : ascii -> bool) (b : string) :
  all_chars sp b = true -> rstrip_with sp b = "".
Proof.
  induction b as [|c b IH]; cbn; [reflexivity|].
  intros H. apply andb_true_iff in H as [Hc Hb]. rewrite IH by exact Hb.
  now rewrite Hc.
Qed.

Lemma append_cons (c : ascii) (a s : string) :
  String c a +:+ s = String c (a +:+ s).
Proof. reflexivity. Qed.

Lemma append_nil (s : string) : "" +:+ s = s.
Proof. reflexivity. Qed.

Lemma lstrip_app_l (sp : ascii -> bool) (a s : string) :
  all_chars sp a = true -> lstrip_with sp (a +:+ s) = lstrip_with sp s.
Proof.
  induction a as [|c a IH]; [reflexivity|].
  rewrite append_cons. cbn.
  intros H. apply andb_true_iff in H as [-> Ha]. auto.
Qed.

Lemma rstrip_app_r (sp : ascii -> bool) (s b : string) :
  all_chars sp b = true -> rstrip_with sp (s +:+ b) = rstrip_with sp s.
Proof.
  intros Hb. induction s as [|c s IH].
  - rewrite append_nil. now apply rstrip_all.
  - rewrite append_cons. cbn. now rewrite IH.
Qed.

Lemma strip_app_r (sp : ascii -> bool) (s b : string) :
  all_chars sp b = true -> strip_with sp (s +:+ b) = strip_with sp s.
Proof.
  intros Hb. unfold strip_with. induction s as [|c s IH].
  - rewrite append_nil, lstrip_all by exact Hb. reflexivity.
  - rewrite append_cons. cbn. destruct (sp c); [exact IH|].
    rewrite <- append_cons. now apply rstrip_app_r.
Qed.

(** white space around a string does not change what [strip] returns *)
Lemma strip_surrounded (a s b : string) :
  all_chars isspace a = true -> all_chars isspace b = true ->
  strip (a +:+ s +:+ b) = strip s.
Proof.
  intros Ha Hb. unfold strip, strip_with at 1.
  rewrite lstrip_app_l by exact Ha. now apply strip_app_r.
Qed.

Lemma upper_char_slash (c : ascii) : upper_char c = "/"%char -> c = "/"%char.
Proof.
  destruct c as [[] [] [] [] [] [] [] []]; vm_compute; intros H;
    first [reflexivity | discriminate H].
Qed.

Lemma upper_char_N (c : ascii) : upper_char c = "N"%char -> c = "N"%char ∨ c = "n"%char.
Proof.
  destruct c as [[] [] [] [] [] [] [] []]; vm_compute; intros H;
    first [left; reflexivity | right; reflexivity | discriminate H].
Qed.

Lemma upper_char_A (c : ascii) : upper_char c = "A"%char -> c = "A"%char ∨ c = "a"%char.
Proof.
  destruct c as [[] [] [] [] [] [] [] []]; vm_compute; intros H;
    first [left; reflexivity | right; reflexivity | discriminate H].
Qed.

(** no spelling of ["N/A"] and no empty string is numeric text *)
Lemma py_float_not_na (v : string) :
  v = "" ∨ upper v = "N/A" -> py_float v = None.
Proof.
  intros [->|H]; [reflexivity|].
  destruct v as [|c1 [|c2 [|c3 [|c4 v]]]]; try discriminate H.
  cbn in H. injection H as H1 H2 H3.
  apply upper_char_slash in H2 as ->.
  apply upper_char_N in H1 as [-> | ->]; apply upper_char_A in H3 as [-> | ->];
    reflexivity.
Qed.

Lemma parse_num_value (val : string) (x : float) :
  py_float (strip val) = Some x -> parse_num val = Some x.
Proof.
  intros Hx. unfold parse_num.
  destruct (String.eqb (strip val) "" || String.eqb (upper (strip val)) "N/A") eqn:E.
  - apply orb_true_iff in E. rewrite !String.eqb_eq in E.
    rewrite py_float_not_na in Hx by exact E. discriminate.
  - now rewrite Hx.
Qed.

Lemma parse_num_none (val : string) :
  strip val = "" ∨ upper (strip val) = "N/A" ∨ py_float (strip val) = None ->
  parse_num val = None.
Proof.
  intros H. unfold parse_num.
  destruct (String.eqb (strip val) "" || String.eqb (upper (strip val)) "N/A");
    [reflexivity|].
  destruct H as [H|[H|H]]; try (rewrite py_float_not_na by auto; reflexivity).
  now rewrite H.
Qed.

Lemma parse_point_bad (text : string) :
  length (split "," text) ≠ 3%nat ->
  parse_point text = Raise (ValueError (bad_point text)).
Proof.
  intros H. unfold parse_point.
  destruct (Nat.eqb_spec (length (split "," text)) 3); [contradiction|reflexivity].
Qed.

Lemma parse_point_ok (text : string) :
  length (split "," text) = 3%nat ->
  parse_point text
  = Ok (sample (parse_num (nth 0 (split "," text) ""))
               (parse_num (nth 1 (split "," text) ""))
               (parse_num (nth 2 (split "," text) ""))).
Proof. intros H. unfold parse_point. now rewrite H. Qed.

Lemma well_keyed_sample cpu thr lat : well_keyed (sample cpu thr lat).
Proof.
  intros k Hk. unfold raw_keys in Hk.
  repeat (apply elem_of_cons in Hk as [->|Hk]; [vm_compute; eauto|]).
  inversion Hk.
Qed.

Lemma well_keyed_with_normalized mx pt : well_keyed pt -> well_keyed (with_normalized mx pt).
Proof.
  intros H k Hk. specialize (H k Hk). unfold with_normalized.
  rewrite lookup_insert_ne; [exact H|].
  intros <-. unfold raw_keys in Hk.
  repeat (apply elem_of_cons in Hk as [Hk|Hk]; [discriminate Hk|]). inversion Hk.
Qed.

(** the first malformed token stops the parsing of the list *)
Lemma for_each_parse_bad (l : list string) :
  (∃ t, t ∈ l ∧ length (split "," t) ≠ 3%nat) ->
  ∃ t, t ∈ l ∧ length (split "," t) ≠ 3%nat
       ∧ for_each parse_point l = Raise (ValueError (bad_point t)).
Proof.
  induction l as [|a l IH]; intros (t & Hin & Hbad); [inversion Hin|].
  destruct (decide (length (split "," a) = 3%nat)) as [Ha|Ha].
  - apply elem_of_cons in Hin as [->|Hin]; [contradiction|].
    destruct IH as (u & Hu & Hubad & Heq); [eauto|].
    exists u. split; [now right|]. split; [exact Hubad|].
    cbn [for_each]. rewrite (parse_point_ok a Ha). cbn. now rewrite Heq.
  - exists a. split; [left|]. split; [exact Ha|].
    cbn [for_each]. now rewrite (parse_point_bad a Ha).
Qed.

Lemma for_each_parse_ok (l : list string) :
  (∀ t, t ∈ l -> length (split "," t) = 3%nat) ->
  ∃ pts, for_each parse_point l = Ok pts
         ∧ length pts = length l ∧ Forall well_keyed pts.
Proof.
  induction l as [|a l IH]; intros Hall.
  - exists []. repeat split. constructor.
  - destruct IH as (pts & Heq & Hlen & Hkeys).
    { intros t Ht. apply Hall. now right. }
    eexists (_ :: pts). cbn [for_each].
    rewrite (parse_point_ok a) by (apply Hall; left). cbn. rewrite Heq. cbn.
    split; [reflexivity|]. split; [cbn; now rewrite Hlen|].
    constructor; [apply well_keyed_sample|exact Hkeys].
Qed.

Lemma for_each_parse_cases (l : list string) :
  (∃ pts, for_each parse_point l = Ok pts
          ∧ (∀ t, t ∈ l -> length (split "," t) = 3%nat))
  ∨ (∃ t, t ∈ l ∧ length (split "," t) ≠ 3%nat
          ∧ for_each parse_point l = Raise (ValueError (bad_point t))).
Proof.
  destruct (decide (Forall (λ t, length (split "," t) = 3%nat) l)) as [H|H].
  - left. rewrite Forall_forall in H.
    destruct (for_each_parse_ok l) as (pts & Heq & _); [exact H|]. eauto.
  - right. apply not_Forall_Exists in H; [|intros t; apply _].
    apply Exists_exists in H. now apply for_each_parse_bad.
Qed.

End Parser.

(** C4.  [parse_num] first trims the white space around the field (white
    space around a field never changes the result); it returns [None]
    for an empty field, for ["N/A"] in any case, and for any other text
    that [float] rejects, without raising; for text that [float] accepts
    it returns the value [float] gives, unchanged, whatever its sign or
    size: ["-2"] gives [-2.0] and ["0"] gives [0.0]. *)
Theorem parse_num_coercion :
  (∀ val : string,
     (Str.strip val = "" -> parse_num val = None)
     ∧ (Str.upper (Str.strip val) = "N/A" -> parse_num val = None)
     ∧ (py_float (Str.strip val) = None -> parse_num val = None)
     ∧ (∀ x : float, py_float (Str.strip val) = Some x -> parse_num val = Some x))
  ∧ (∀ a val b : string,
       all_chars Str.isspace a = true -> all_chars Str.isspace b = true ->
       parse_num (a +:+ val +:+ b) = parse_num val)
  ∧ parse_num "" = None
  ∧ parse_num "   " = None
  ∧ parse_num " n/A " = None
  ∧ parse_num "fast" = None
  ∧ parse_num " 620.0 " = Some (of_Z 620)
  ∧ parse_num "-2" = Some (of_Z (-2))
  ∧ parse_num "0" = Some zero.
Proof.
  split; [|split].
  - intros val. repeat split.
    + intros H. apply parse_num_none. auto.
    + intros H. apply parse_num_none. auto.
    + intros H. apply parse_num_none. auto.
    + apply parse_num_value.
  - intros a val b Ha Hb. unfold parse_num. now rewrite strip_surrounded.
  - repeat split; vm_compute; reflexivity.
Qed.

(** the theorem of C4 at the fields ["N/a"], ["fast"] and ["82000.0"] *)
Lemma parse_num_coercion_witness :
  parse_num "N/a" = None
  ∧ parse_num "fast" = None
  ∧ parse_num "82000.0" = Some (of_Z 82000)
  ∧ parse_num (" " +:+ "82000.0" +:+ "  ") = parse_num "82000.0".
Proof.
  pose proof (proj1 parse_num_coercion) as H.
  split; [|split; [|split]].
  - exact (proj1 (proj2 (H "N/a")) eq_refl).
  - exact (proj1 (proj2 (proj2 (H "fast"))) eq_refl).
  - exact (proj2 (proj2 (proj2 (H "82000.0"))) (of_Z 82000) eq_refl).
  - exact (proj1 (proj2 parse_num_coercion) " " "82000.0" "  " eq_refl eq_refl).
Defined.

Section MainParsing.

Lemma run_main_malformed (w : World) (args : Args) :
  (∃ t, t ∈ points args ∧ length (Str.split "," t) ≠ 3%nat) ->
  ∃ t, t ∈ points args ∧ length (Str.split "," t) ≠ 3%nat
       ∧ run_main w args
         = ([], write_stderr (bad_point t +:+ nl) no_output, Returned 1).
Proof.
  intros H. destruct (for_each_parse_bad _ H) as (t & Hin & Hbad & Heq).
  exists t. split; [exact Hin|]. split; [exact Hbad|].
  unfold run_main. now rewrite Heq.
Qed.

End MainParsing.

(** C2.  [parse_point] raises exactly when splitting the token on [","]
    does not give 3 fields, and the error is a [ValueError] whose message
    quotes the token; a token with 3 fields gives a sample, whatever the
    fields hold.  In [main] a malformed argument ends the run with exit
    code 1, the message on the error stream, and nothing on standard
    output, in the CSV file or in the chart. *)
Theorem parse_point_format_error :
  (∀ text : string,
     (length (Str.split "," text) ≠ 3%nat ->
      parse_point text
      = Raise (ValueError ("Bad point '" +:+ text +:+ "': expected cpu,throughput,latency")))
     ∧ (length (Str.split "," text) = 3%nat -> ∃ pt : Sample, parse_point text = Ok pt)
     ∧ ((∃ e : exn, parse_point text = Raise e) ↔ length (Str.split "," text) ≠ 3%nat))
  ∧ (∀ (w : World) (args : Args),
       (∃ t : string, t ∈ points args ∧ length (Str.split "," t) ≠ 3%nat) ->
       ∃ t : string,
         t ∈ points args ∧ length (Str.split "," t) ≠ 3%nat
         ∧ main w args = (write_stderr (bad_point t +:+ nl) no_output, Returned 1)
         ∧ stdout (main w args).1 = ""
         ∧ csv_file (main w args).1 = None
         ∧ chart_file (main w args).1 = None)
  ∧ parse_point "x,y" = Raise (ValueError "Bad point 'x,y': expected cpu,throughput,latency")
  ∧ parse_point "x,y,z,w"
    = Raise (ValueError "Bad point 'x,y,z,w': expected cpu,throughput,latency")
  ∧ parse_point "x,y,z" = Ok (sample None None None).
Proof.
  split; [|split].
  - intros text. split; [apply parse_point_bad|]. split.
    + intros H. rewrite (parse_point_ok text H). eauto.
    + split.
      * intros [e He] H. rewrite (parse_point_ok text H) in He. discriminate.
      * intros H. rewrite (parse_point_bad text H). eauto.
  - intros w args H. destruct (run_main_malformed w args H) as (t & Hin & Hbad & Heq).
    exists t. unfold main. rewrite Heq. repeat split; assumption.
  - repeat split; vm_compute; reflexivity.
Qed.

(** the theorem of C2 at the arguments ["0,100000.0,620.0"; "x,y"] *)
Lemma parse_point_format_error_witness :
  ∃ t : string,
    main fair_world
      {| points := ["0,100000.0,620.0"; "x,y"]; format := Csv; output_csv := None;
         plot_out := "cass_normalized_throughput.png"; no_plot := false |}
    = (write_stderr (bad_point t +:+ nl) no_output, Returned 1).
Proof.
  destruct (proj1 (proj2 parse_point_format_error) fair_world
              {| points := ["0,100000.0,620.0"; "x,y"]; format := Csv;
                 output_csv := None; plot_out := "cass_normalized_throughput.png";
                 no_plot := false |})
    as (t & _ & _ & Heq & _).
  - exists "x,y". split; [right; left|vm_compute; lia].
  - exists t. exact Heq.
Defined.

(** ** Sorting by key *)

Section Sorting.

Lemma insert_keyed_perm (x : float * Sample) (l : list (float * Sample)) :
  Permutation (insert_keyed x l) (x :: l).
Proof.
  induction l as [|y l IH]; cbn; [reflexivity|].
  destruct (ltb y.1 x.1); [|reflexivity].
  rewrite IH. apply perm_swap.
Qed.

Lemma sort_keyed_perm (l : list (float * Sample)) : Permutation (sort_keyed l) l.
Proof.
  induction l as [|x l IH]; cbn; [reflexivity|].
  rewrite insert_keyed_perm. now constructor.
Qed.

Lemma key_le_trans (a b c : float * Sample) :
  is_nan a.1 = false -> is_nan b.1 = false -> is_nan c.1 = false ->
  key_le a b -> key_le b c -> key_le a c.
Proof.
  unfold key_le. intros Ha Hb Hc Hab Hbc.
  apply leb_not_ltb. apply (leb_trans _ b.1); now apply not_ltb_leb.
Qed.

Lemma insert_keyed_sorted (x : float * Sample) (l : list (float * Sample)) :
  is_nan x.1 = false -> Forall (λ y, is_nan y.1 = false) l ->
  StronglySorted key_le l -> StronglySorted key_le (insert_keyed x l).
Proof.
  intros Hx Hl Hs. induction Hs as [|y l Hs IH Hy]; cbn.
  - repeat constructor.
  - inversion Hl as [|? ? Hynan Hl']; subst.
    destruct (ltb y.1 x.1) eqn:Hyx.
    + constructor; [now apply IH|].
      rewrite insert_keyed_perm. constructor; [|exact Hy].
      unfold key_le. now apply ltb_asym.
    + constructor; [now constructor|].
      constructor; [exact Hyx|].
      apply Forall_forall. intros z Hz.
      pose proof (proj1 (Forall_forall _ _) Hy z Hz) as Hyz.
      pose proof (proj1 (Forall_forall _ _) Hl' z Hz) as Hz'.
      now apply (key_le_trans x y z).
Qed.

Lemma sort_keyed_sorted (l : list (float * Sample)) :
  Forall (λ y, is_nan y.1 = false) l -> StronglySorted key_le (sort_keyed l).
Proof.
  induction l as [|x l IH]; intros Hl; cbn; [constructor|].
  inversion Hl; subst. apply insert_keyed_sorted; auto.
  now rewrite sort_keyed_perm.
Qed.

Lemma eval_sort_key (pt : Sample) :
  is_Some (pt !! "cpu_pct") -> eval sort_key pt = Ok (key_of pt).
Proof.
  intros [v Hv]. unfold eval, sort_key, key_of, field, mbind, dictM_bind, getitem.
  rewrite Hv. reflexivity.
Qed.

Lemma for_each_with_key (pts : list Sample) :
  Forall well_keyed pts ->
  for_each (with_key sort_key) pts = Ok ((λ pt, (key_of pt, pt)) <$> pts).
Proof.
  induction 1 as [|pt pts Hpt _ IH]; [reflexivity|].
  cbn [for_each]. rewrite IH. unfold with_key.
  rewrite eval_sort_key by (apply Hpt; left). reflexivity.
Qed.

(** [sorted] on samples that have their keys *)
Lemma sorted_eq (pts : list Sample) :
  Forall well_keyed pts ->
  sorted sort_key pts = Ok ((sort_keyed ((λ pt, (key_of pt, pt)) <$> pts)).*2).
Proof. intros H. unfold sorted. now rewrite for_each_with_key. Qed.

Lemma sorted_perm (pts : list Sample) :
  Permutation ((sort_keyed ((λ pt, (key_of pt, pt)) <$> pts)).*2) pts.
Proof.
  rewrite sort_keyed_perm, <- list_fmap_compose.
  rewrite (list_fmap_ext _ id pts); [now rewrite list_fmap_id|now intros].
Qed.

Lemma StronglySorted_lookup {A : Type} (R : A -> A -> Prop) (l : list A)
    (i j : nat) (x y : A) :
  StronglySorted R l -> (i < j)%nat -> l !! i = Some x -> l !! j = Some y -> R x y.
Proof.
  intros Hs. revert i j. induction Hs as [|z l Hs IH Hz]; intros i j Hij Hi Hj.
  - discriminate Hi.
  - destruct j as [|j]; [lia|]. cbn in Hj. destruct i as [|i].
    + injection Hi as <-. apply (proj1 (Forall_forall _ _) Hz).
      eapply list_elem_of_lookup_2; eauto.
    + cbn in Hi. apply (IH i j); [lia|assumption|assumption].
Qed.

Lemma sort_keyed_keys (pts : list Sample) :
  Forall (λ p : float * Sample, p.1 = key_of p.2)
    (sort_keyed ((λ pt, (key_of pt, pt)) <$> pts)).
Proof.
  rewrite sort_keyed_perm. apply Forall_fmap, Forall_forall. now intros.
Qed.

(** in the sorted list, no sample stands before one with a smaller key *)
Lemma sorted_ascending (pts : list Sample) (i j : nat) (a b : Sample) :
  (∀ pt, pt ∈ pts -> is_nan (key_of pt) = false) ->
  (i < j)%nat ->
  (sort_keyed ((λ pt, (key_of pt, pt)) <$> pts)).*2 !! i = Some a ->
  (sort_keyed ((λ pt, (key_of pt, pt)) <$> pts)).*2 !! j = Some b ->
  ltb (key_of b) (key_of a) = false.
Proof.
  intros Hnan Hij Hi Hj.
  set (keyed := (λ pt, (key_of pt, pt)) <$> pts) in *.
  rewrite list_lookup_fmap in Hi, Hj.
  destruct (sort_keyed keyed !! i) as [[ka a']|] eqn:Ei; [|discriminate].
  destruct (sort_keyed keyed !! j) as [[kb b']|] eqn:Ej; [|discriminate].
  cbn in Hi, Hj. injection Hi as ->. injection Hj as ->.
  pose proof (sort_keyed_keys pts) as Hkeys. fold keyed in Hkeys.
  rewrite Forall_forall in Hkeys.
  pose proof (Hkeys _ (list_elem_of_lookup_2 _ _ _ Ei)) as Ha.
  pose proof (Hkeys _ (list_elem_of_lookup_2 _ _ _ Ej)) as Hb.
  cbn in Ha, Hb. subst ka kb.
  assert (StronglySorted key_le (sort_keyed keyed)) as Hs.
  { apply sort_keyed_sorted. apply Forall_fmap, Forall_forall.
    intros pt Hpt. apply Hnan, Hpt. }
  exact (StronglySorted_lookup key_le _ i j _ _ Hs Hij Ei Ej).
Qed.

End Sorting.

(** ** Rendering samples that have their keys *)

Section Rendering.

Ltac in_keys := unfold raw_keys; first [left | right; in_keys].


Lemma for_each_ok {A B : Type} (f : A -> result B) (l : list A) :
  (∀ a, a ∈ l -> ∃ b, f a = Ok b) ->
  ∃ bs, for_each f l = Ok bs ∧ length bs = length l.
Proof.
  induction l as [|a l IH]; intros Hf.
  - exists []. split; reflexivity.
  - destruct (Hf a) as [b Hb]; [left|].
    destruct IH as (bs & Hbs & Hlen). { intros a' Hin. apply Hf. now right. }
    exists (b :: bs). cbn [for_each]. rewrite Hb, Hbs. cbn. now rewrite Hlen.
Qed.



Lemma label_height_ok (pt : Sample) : well_keyed pt -> ∃ lh, eval label_height pt = Ok lh.
Proof.
  intros H. destruct (H "cpu_pct") as [c Hc]; [in_keys|].
  unfold eval, label_height, mbind, dictM_bind, getitem, get. rewrite Hc.
  eexists. reflexivity.
Qed.



Lemma plot_unavailable (w : World) pts path o exc :
  matplotlib_error w = Some exc ->
  plot w pts path o
  = (write_stderr ("Plotting skipped (matplotlib unavailable): " +:+ exc +:+ nl) o,
     Ok false).
Proof. intros H. unfold plot. now rewrite H. Qed.

Lemma eval_label_height (pt : Sample) :
  well_keyed pt -> eval label_height pt = Ok (label_of pt, height_of pt).
Proof.
  intros H. destruct (H "cpu_pct") as [c Hc]; [in_keys|].
  unfold eval, label_height, label_of, height_of, field, mbind, dictM_bind, getitem, get.
  rewrite Hc. reflexivity.
Qed.

Lemma for_each_label_height (s : list Sample) :
  Forall well_keyed s ->
  for_each (eval label_height) s = Ok ((λ pt, (label_of pt, height_of pt)) <$> s).
Proof.
  induction 1 as [|pt s Hpt _ IH]; [reflexivity|].
  cbn [for_each]. now rewrite IH, eval_label_height.
Qed.

(** [max] returns one of its arguments, whatever they are *)
Lemma fold_max2_in (l : list float) (a : float) :
  fold_left max2 l a = a ∨ fold_left max2 l a ∈ l.
Proof.
  revert a. induction l as [|h l IH]; intros a; cbn [fold_left]; [now left|].
  destruct (IH (max2 a h)) as [H|H]; [|right; now right].
  rewrite H. unfold max2. destruct (gtb h a); [right; left|now left].
Qed.

Lemma axis_top_finite (s : list Sample) (top : float) :
  axis_fits s -> max_list ((height_of <$> s) ++ [hundred]) = Ok top ->
  is_finite (mul top one_point_one) = true.
Proof.
  intros Hfit Htop.
  assert (top = hundred ∨ ∃ pt, pt ∈ s ∧ top = height_of pt) as [->|(pt & Hin & ->)];
    [|reflexivity|now apply Hfit].
  destruct s as [|a s']; cbn [fmap list_fmap app max_list] in Htop;
    injection Htop as <-; [now left|].
  destruct (fold_max2_in ((height_of <$> s') ++ [hundred]) (height_of a)) as [->|H].
  { right. exists a. split; [left|reflexivity]. }
  apply elem_of_app in H as [H|H].
  - apply list_elem_of_fmap in H as (pt & -> & Hpt). right. exists pt. split; [now right|reflexivity].
  - apply list_elem_of_singleton in H. now left.
Qed.

(** the outcomes of [plot] *)
Lemma plot_cases (w : World) (pts : list Sample) (path : string) (o : Out) :
  Forall well_keyed pts ->
  match matplotlib_error w, pts with
  | Some exc, _ =>
      plot w pts path o
      = (write_stderr ("Plotting skipped (matplotlib unavailable): " +:+ exc +:+ nl) o,
         Ok false)
  | None, [] => plot w pts path o = (o, Ok false)
  | None, _ :: _ =>
      ∃ (s : list Sample) (top : float),
        sorted sort_key pts = Ok s
        ∧ Permutation s pts
        ∧ max_list ((height_of <$> s) ++ [hundred]) = Ok top
        ∧ plot w pts path o
          = if is_finite (mul top one_point_one) then
              match savefig_error w path with
              | Some e => (o, Raise e)
              | None =>
                  (write_stdout ("Wrote plot to " +:+ path +:+ nl)
                     (set_chart_file path
                        {| bars := chart_bar <$> s; ylim_top := mul top one_point_one |}
                        o),
                   Ok true)
              end
            else (o, Raise axis_error)
  end.
Proof.
  intros Hk. unfold plot.
  destruct (matplotlib_error w) as [exc|]; [reflexivity|].
  rewrite (sorted_eq pts Hk).
  set (s := (sort_keyed ((λ pt, (key_of pt, pt)) <$> pts)).*2).
  assert (Permutation s pts) as Hperm by apply sorted_perm.
  assert (Forall well_keyed s) as Hks by (now rewrite Hperm).
  change (Ok s ≫= λ pts_sorted, for_each (eval label_height) pts_sorted)
    with (for_each (eval label_height) s).
  rewrite (for_each_label_height s Hks).
  destruct pts as [|pt pts'].
  { apply Permutation_nil_r in Hperm. rewrite Hperm. reflexivity. }
  destruct s as [|a s'] eqn:Es.
  { apply Permutation_sym, Permutation_nil_r in Hperm. discriminate. }
  cbn [fmap list_fmap]. rewrite <- !list_fmap_compose. cbn [snd app max_list].
  change (snd ∘ (λ pt : Sample, (label_of pt, height_of pt))) with height_of.
  exists (a :: s'), (fold_left max2 ((height_of <$> s') ++ [hundred]) (height_of a)).
  split; [reflexivity|]. split; [exact Hperm|]. split; [reflexivity|].
  unfold ylim.
  destruct (is_finite (mul (fold_left max2 ((height_of <$> s') ++ [hundred]) (height_of a))
                         one_point_one)); [|reflexivity].
  destruct (savefig_error w path) as [e|]; reflexivity.
Qed.

(** what [plot] adds to standard output when the axis fits *)
Lemma plot_stdout (w : World) (pts : list Sample) (path : string) (o : Out) :
  Forall well_keyed pts -> pts ≠ [] -> axis_fits pts ->
  stdout (plot w pts path o).1
  = stdout o +:+ match matplotlib_error w, savefig_error w path with
                 | None, None => "Wrote plot to " +:+ path +:+ nl
                 | _, _ => ""
                 end.
Proof.
  assert (∀ t : string, t = t +:+ "") as Hnil
    by (induction t as [|c t IH]; [reflexivity|rewrite append_cons, <- IH; reflexivity]).
  intros Hk Hne Hfit. pose proof (plot_cases w pts path o Hk) as H.
  destruct (matplotlib_error w) as [exc|]; [rewrite H; apply Hnil|].
  destruct pts as [|pt pts']; [contradiction|].
  destruct H as (s & top & _ & Hperm & Htop & ->).
  rewrite (axis_top_finite s top); [|intros x Hx; apply Hfit; now rewrite <- Hperm|exact Htop].
  destruct (savefig_error w path); [apply Hnil|reflexivity].
Qed.



Lemma parsed_well_keyed (l : list string) (parsed : list Sample) :
  for_each parse_point l = Ok parsed ->
  Forall well_keyed parsed ∧ length parsed = length l
  ∧ ∀ t, t ∈ l -> length (Str.split "," t) = 3%nat.
Proof.
  intros Hparse.
  destruct (for_each_parse_cases l) as [(pts & _ & Hwf)|(t & _ & _ & Hbad)];
    [|rewrite Hbad in Hparse; discriminate].
  destruct (for_each_parse_ok l Hwf) as (pts' & Heq & Hlen & Hk).
  rewrite Hparse in Heq. injection Heq as <-. auto.
Qed.





End Rendering.




(** C5, as amended.  For the tokens ["0,100000.0,620.0"] and
    ["25,82000.0,640.0"] with [--format csv], standard output holds the
    header line and then exactly the rows
    [0.0,100.0,100000.00,620.00,1.0000] and
    [25.0,75.0,82000.00,640.00,0.8200], in input order, each line ended
    by CR LF; the only other text is the line that reports the chart,
    when the chart is written. *)
Theorem scenario_csv_output (w : World) :
  stdout (main w scenario).1
  = "cpu_pct,cpu_availability_pct,throughput,latency,normalized_throughput" +:+ crlf
    +:+ "0.0,100.0,100000.00,620.00,1.0000" +:+ crlf
    +:+ "25.0,75.0,82000.00,640.00,0.8200" +:+ crlf
    +:+ match matplotlib_error w, savefig_error w "cass_normalized_throughput.png" with
        | None, None => "Wrote plot to cass_normalized_throughput.png" +:+ nl
        | _, _ => ""
        end.
Proof.
  assert (for_each parse_point (points scenario) = Ok scenario_points) as Hparse
    by (vm_compute; reflexivity).
  unfold main, run_main. rewrite Hparse, add_normalized_eq.
  set (pts := with_normalized (max_throughput scenario_points) <$> scenario_points).
  assert (Forall well_keyed pts) as Hk
    by (repeat constructor; apply well_keyed_with_normalized, well_keyed_sample).
  unfold and_then, output_csv_step, format_step, plot_step.
  cbn [output_csv format no_plot plot_out scenario negb andb].
  assert (write_csv pts (stdout no_output)
          = (pts,
             "cpu_pct,cpu_availability_pct,throughput,latency,normalized_throughput"
             +:+ crlf +:+ "0.0,100.0,100000.00,620.00,1.0000" +:+ crlf
             +:+ "25.0,75.0,82000.00,640.00,0.8200" +:+ crlf, Ok tt)) as ->
    by (vm_compute; reflexivity).
  change (nonempty "cass_normalized_throughput.png") with true. cbv iota.
  assert (axis_fits pts) as Hfit.
  { intros pt Hin. unfold pts, scenario_points in Hin. cbn [fmap list_fmap] in Hin.
    repeat (apply elem_of_cons in Hin as [->|Hin]; [vm_compute; reflexivity|]).
    inversion Hin. }
  match goal with
  | |- context [plot w pts ?path ?o] =>
      pose proof (plot_stdout w pts path o Hk ltac:(discriminate) Hfit) as Hplot;
      destruct (plot w pts path o) as [o' [b|e]]
  end; cbn [fst snd stdout set_stdout] in *; rewrite Hplot; reflexivity.
Qed.

(** C5 as stated fails: the first data row on standard output is
    [0.0,100.0,100000.00,620.00,1.0000], not [0,100,100000.00,620.00,1.0000],
    and the second is [25.0,75.0,82000.00,640.00,0.8200], not
    [25,75,82000.00,640.00,0.8200]: [cpu_pct] and the availability are
    floats, and the CSV writer writes them with [str]. *)
Lemma scenario_rows_are_written_as_floats :
  lines (stdout (main fair_world scenario).1)
  = ["cpu_pct,cpu_availability_pct,throughput,latency,normalized_throughput";
     "0.0,100.0,100000.00,620.00,1.0000";
     "25.0,75.0,82000.00,640.00,0.8200";
     "Wrote plot to cass_normalized_throughput.png"; ""]
  ∧ lines (stdout (main fair_world scenario).1) !! 1%nat
    ≠ Some "0,100,100000.00,620.00,1.0000"
  ∧ lines (stdout (main fair_world scenario).1) !! 2%nat
    ≠ Some "25,75,82000.00,640.00,0.8200".
Proof.
  assert (lines (stdout (main fair_world scenario).1)
          = ["cpu_pct,cpu_availability_pct,throughput,latency,normalized_throughput";
             "0.0,100.0,100000.00,620.00,1.0000";
             "25.0,75.0,82000.00,640.00,0.8200";
             "Wrote plot to cass_normalized_throughput.png"; ""]) as H
    by (vm_compute; reflexivity).
  rewrite H. split; [reflexivity|]. split; discriminate.
Qed.

(** C9, as amended.  For samples whose [cpu_pct] is never [nan], the
    chart renderer displays a permutation of the samples in ascending
    order of the sort key, which is [cpu_pct] or 999 when [cpu_pct] is
    missing: samples with a [cpu_pct] stand in ascending order of it, and
    every sample without [cpu_pct] stands after every sample whose
    [cpu_pct] is below 999. *)
Theorem chart_order (points : list Sample) :
  Forall well_keyed points ->
  (∀ (pt : Sample) (c : float),
     pt ∈ points -> field pt "cpu_pct" = Some c -> is_nan c = false) ->
  ∃ s : list Sample,
    sorted sort_key points = Ok s
    ∧ Permutation s points
    ∧ (∀ (i j : nat) (a b : Sample),
         (i < j)%nat -> s !! i = Some a -> s !! j = Some b ->
         ltb (key_of b) (key_of a) = false)
    ∧ (∀ (i j : nat) (a b : Sample) (ca cb : float),
         s !! i = Some a -> s !! j = Some b ->
         field a "cpu_pct" = Some ca -> field b "cpu_pct" = Some cb ->
         ltb ca cb = true -> (i < j)%nat)
    ∧ (∀ (i j : nat) (a b : Sample) (cb : float),
         s !! i = Some a -> s !! j = Some b ->
         field a "cpu_pct" = None -> field b "cpu_pct" = Some cb ->
         ltb cb sentinel = true -> (j < i)%nat).
Proof.
  intros Hk Hnan.
  exists ((sort_keyed ((λ pt, (key_of pt, pt)) <$> points)).*2).
  set (s := (sort_keyed ((λ pt, (key_of pt, pt)) <$> points)).*2).
  assert (∀ pt, pt ∈ points -> is_nan (key_of pt) = false) as Hknan.
  { intros pt Hpt. unfold key_of.
    destruct (field pt "cpu_pct") as [c|] eqn:E; [eapply Hnan; eauto|reflexivity]. }
  assert (∀ (i j : nat) (a b : Sample),
            (i < j)%nat -> s !! i = Some a -> s !! j = Some b ->
            ltb (key_of b) (key_of a) = false) as Hasc.
  { intros i j a b. apply sorted_ascending, Hknan. }
  assert (∀ (i j : nat) (a b : Sample),
            s !! i = Some a -> s !! j = Some b ->
            ltb (key_of a) (key_of b) = true -> (i < j)%nat) as Hstrict.
  { intros i j a b Hi Hj Hlt.
    destruct (Nat.lt_trichotomy i j) as [Hij|[->|Hji]]; [exact Hij| |].
    - rewrite Hi in Hj. injection Hj as ->. now rewrite ltb_irrefl in Hlt.
    - rewrite (Hasc j i b a Hji Hj Hi) in Hlt. discriminate. }
  split; [apply sorted_eq, Hk|]. split; [apply sorted_perm|].
  split; [exact Hasc|]. split.
  - intros i j a b ca cb Hi Hj Ha Hb Hlt. apply (Hstrict i j a b Hi Hj).
    unfold key_of. now rewrite Ha, Hb.
  - intros i j a b cb Hi Hj Ha Hb Hlt. apply (Hstrict j i b a Hj Hi).
    unfold key_of. now rewrite Ha, Hb.
Qed.

(** the theorem of C9 at the samples of ["25,82000.0,640.0"],
    ["N/A,1,1"] and ["0,100000.0,620.0"] *)
Lemma chart_order_witness :
  ∃ s : list Sample,
    sorted sort_key
      [sample (Some (literal "25")) (Some (literal "82000.0")) (Some (literal "640.0"));
       sample None (Some one) (Some one);
       sample (Some zero) (Some (literal "100000.0")) (Some (literal "620.0"))]
    = Ok s
    ∧ length s = 3%nat.
Proof.
  destruct (chart_order
              [sample (Some (literal "25")) (Some (literal "82000.0"))
                 (Some (literal "640.0"));
               sample None (Some one) (Some one);
               sample (Some zero) (Some (literal "100000.0")) (Some (literal "620.0"))])
    as (s & Hs & Hperm & _).
  - repeat constructor; apply well_keyed_sample.
  - intros pt c Hin Hc.
    repeat (apply elem_of_cons in Hin as [->|Hin];
            [vm_compute in Hc; try discriminate Hc; injection Hc as <-; reflexivity|]).
    inversion Hin.
  - exists s. split; [exact Hs|]. now rewrite (Permutation_length Hperm).
Defined.

(** C9 as stated fails for a [cpu_pct] above 999: of the samples of
    ["1000,1,1"] and ["N/A,1,1"], the one without [cpu_pct] has the key
    999 and is displayed first, before the sample whose [cpu_pct] is
    present. *)
Lemma missing_cpu_before_large_cpu :
  ∃ a b : Sample,
    for_each parse_point ["1000,1,1"; "N/A,1,1"] = Ok [a; b]
    ∧ field a "cpu_pct" = Some (of_Z 1000)
    ∧ field b "cpu_pct" = None
    ∧ sorted sort_key [a; b] = Ok [b; a].
Proof.
  exists (sample (Some (of_Z 1000)) (Some one) (Some one)),
         (sample None (Some one) (Some one)).
  split; [vm_compute; reflexivity|].
  split; [vm_compute; reflexivity|].
  split; [vm_compute; reflexivity|].
  vm_compute. reflexivity.
Qed.

(** C8, as amended.  When every throughput is a binary64 value and the
    maximum is defined, finite and not zero, every sample whose
    throughput is not [None] and not negative (so not [nan] either) gets
    a [normalized_throughput] between 0 and 1, both included: a
    throughput of zero gives 0.  The normalized value of a sample lies
    outside of this interval only when the throughput of this sample is
    negative or [nan].  Nothing is clamped: throughputs [-1, 2] give
    [-0.5, 1.0], and throughputs [5, nan] give [1.0, nan]. *)
Theorem normalized_in_unit_interval :
  (∀ (points : list Sample) (m : float),
     (∀ t : float, t ∈ throughputs points -> valid t = true) ->
     max_throughput points = Some m -> is_finite m = true -> truthy m = true ->
     ∀ (i : nat) (pt : Sample) (thr : float),
       points !! i = Some pt -> field pt "throughput" = Some thr ->
       leb zero thr = true ->
       ∃ (pt' : Sample) (q : float),
         (add_normalized points).1 !! i = Some pt'
         ∧ pt' !! "normalized_throughput" = Some (Some q)
         ∧ q = div thr m
         ∧ leb zero q = true ∧ leb q one = true)
  ∧ (∀ (points : list Sample) (m : float),
       (∀ t : float, t ∈ throughputs points -> valid t = true) ->
       max_throughput points = Some m -> is_finite m = true -> truthy m = true ->
       ∀ (i : nat) (pt pt' : Sample) (thr q : float),
         points !! i = Some pt -> field pt "throughput" = Some thr ->
         (add_normalized points).1 !! i = Some pt' ->
         pt' !! "normalized_throughput" = Some (Some q) ->
         leb zero q = false ∨ leb q one = false ->
         ltb thr zero = true ∨ is_nan thr = true)
  ∧ (∀ c1 l1 c2 l2 : option float,
       normalized_column
         (add_normalized [sample c1 (Some (literal "-1")) l1;
                          sample c2 (Some (literal "2")) l2]).1
       = [Some (Some (literal "-0.5")); Some (Some one)])
  ∧ (∀ c1 l1 c2 l2 : option float,
       normalized_column
         (add_normalized [sample c1 (Some zero) l1;
                          sample c2 (Some (literal "100")) l2]).1
       = [Some (Some zero); Some (Some one)])
  ∧ (∀ c1 l1 c2 l2 : option float,
       max_throughput [sample c1 (Some (literal "5")) l1; sample c2 (Some nan) l2]
       = Some (literal "5")
       ∧ normalized_column
           (add_normalized [sample c1 (Some (literal "5")) l1;
                            sample c2 (Some nan) l2]).1
         = [Some (Some one); Some (Some nan)]).
Proof.
  assert (∀ (points : list Sample) (m : float),
            (∀ t : float, t ∈ throughputs points -> valid t = true) ->
            max_throughput points = Some m -> is_finite m = true -> truthy m = true ->
            ∀ (i : nat) (pt : Sample) (thr : float),
              points !! i = Some pt -> field pt "throughput" = Some thr ->
              leb zero thr = true ->
              ∃ (pt' : Sample) (q : float),
                (add_normalized points).1 !! i = Some pt'
                ∧ pt' !! "normalized_throughput" = Some (Some q)
                ∧ q = div thr m
                ∧ leb zero q = true ∧ leb q one = true) as Hin01.
  { intros points m Hvalid Hm Hfin Hnz i pt thr Hi Hthr Hpos.
    assert (thr ∈ throughputs points) as Hin.
    { unfold throughputs. apply list_elem_of_omap. exists pt.
      split; [eapply list_elem_of_lookup_2; eauto|exact Hthr]. }
    pose proof (max_throughput_spec points) as Hmax. rewrite Hm in Hmax.
    destruct Hmax as [Hmin Hmax].
    destruct (ratio_in_unit_interval thr m) as [H0 H1]; auto.
    exists (with_normalized (Some m) pt), (div thr m).
    rewrite add_normalized_eq, Hm. cbn [fst].
    split; [rewrite list_lookup_fmap, Hi; reflexivity|].
    split; [|auto].
    rewrite lookup_with_normalized, Hthr. cbn. now rewrite Hnz. }
  split; [exact Hin01|]. split; [|split; [|split]].
  - intros points m Hvalid Hm Hfin Hnz i pt pt' thr q Hi Hthr Hi' Hq Hout.
    destruct (is_nan thr) eqn:Hnan; [now right|].
    destruct (ltb thr zero) eqn:Hneg; [now left|]. exfalso.
    assert (leb zero thr = true) as Hpos by (now apply not_ltb_leb).
    destruct (Hin01 points m Hvalid Hm Hfin Hnz i pt thr Hi Hthr Hpos)
      as (pt2 & q2 & Hi2 & Hq2 & _ & H0 & H1).
    rewrite Hi' in Hi2. injection Hi2 as <-.
    rewrite Hq in Hq2. injection Hq2 as <-.
    destruct Hout; congruence.
  - intros. rewrite add_normalized_eq. vm_compute. reflexivity.
  - intros. rewrite add_normalized_eq. vm_compute. reflexivity.
  - intros. split; [vm_compute; reflexivity|].
    rewrite add_normalized_eq. vm_compute. reflexivity.
Qed.

(** the theorem of C8 at the samples of ["0,100000.0,620.0"] and
    ["25,82000.0,640.0"], for the second one *)
Lemma normalized_in_unit_interval_witness :
  ∃ (pt' : Sample) (q : float),
    (add_normalized scenario_points).1 !! 1%nat = Some pt'
    ∧ pt' !! "normalized_throughput" = Some (Some q)
    ∧ q = div (literal "82000.0") (literal "100000.0")
    ∧ leb zero q = true ∧ leb q one = true.
Proof.
  refine (proj1 normalized_in_unit_interval scenario_points (literal "100000.0")
            _ _ eq_refl eq_refl 1%nat _ (literal "82000.0") _ _ eq_refl).
  - intros t Ht. unfold scenario_points in Ht. rewrite !throughputs_cons in Ht.
    cbv [field sample] in Ht.
    repeat (apply elem_of_cons in Ht as [->|Ht]; [vm_compute; reflexivity|]).
    inversion Ht.
  - vm_compute. reflexivity.
  - reflexivity.
  - vm_compute. reflexivity.
Defined.

(** C8 as stated fails at a throughput of zero and at an infinite
    maximum.  For the tokens ["0,0,1"] and ["0,100,1"] the maximum is
    100 and the first throughput, 0, is not negative, but its normalized
    value is 0, which is not in (0, 1].  For the token ["0,inf,1"] no
    throughput is negative and the normalized value is [nan], which is
    neither at least 0 nor at most 1. *)
Lemma zero_and_infinite_throughput_leave_the_interval :
  (∃ a b : Sample,
     for_each parse_point ["0,0,1"; "0,100,1"] = Ok [a; b]
     ∧ max_throughput [a; b] = Some hundred
     ∧ truthy hundred = true
     ∧ field a "throughput" = Some zero
     ∧ leb zero zero = true
     ∧ normalized_column (add_normalized [a; b]).1 = [Some (Some zero); Some (Some one)]
     ∧ ltb zero zero = false)
  ∧ (∃ a : Sample,
       for_each parse_point ["0,inf,1"] = Ok [a]
       ∧ max_throughput [a] = Some inf
       ∧ truthy inf = true
       ∧ field a "throughput" = Some inf
       ∧ leb zero inf = true
       ∧ normalized_column (add_normalized [a]).1 = [Some (Some nan)]
       ∧ leb zero nan = false ∧ leb nan one = false).
Proof.
  split.
  - exists (sample (Some zero) (Some zero) (Some one)),
           (sample (Some zero) (Some hundred) (Some one)).
    split; [vm_compute; reflexivity|].
    split; [vm_compute; reflexivity|].
    split; [reflexivity|].
    split; [vm_compute; reflexivity|].
    split; [reflexivity|].
    split; [vm_compute; reflexivity|reflexivity].
  - exists (sample (Some zero) (Some inf) (Some one)).
    split; [vm_compute; reflexivity|].
    split; [vm_compute; reflexivity|].
    split; [reflexivity|].
    split; [vm_compute; reflexivity|].
    split; [reflexivity|].
    split; [vm_compute; reflexivity|split; reflexivity].
Qed.

(* ===================================================================== *)
(** * Further properties of the renderers and of [main] *)
(* ===================================================================== *)

(** ** More on strings *)

Section Strings.

Lemma append_assoc (a b c : string) : (a +:+ b) +:+ c = a +:+ (b +:+ c).
Proof.
  induction a as [|x a IH]; [reflexivity|].
  rewrite !append_cons. now rewrite IH.
Qed.

Lemma append_empty_r (a : string) : a +:+ "" = a.
Proof. induction a as [|x a IH]; [reflexivity|]. rewrite append_cons. now rewrite IH. Qed.

Lemma length_append (a b : string) :
  String.length (a +:+ b) = (String.length a + String.length b)%nat.
Proof.
  induction a as [|x a IH]; [reflexivity|].
  rewrite append_cons. cbn. now rewrite IH.
Qed.

Lemma length_repeat_char (c : ascii) (n : nat) : String.length (Str.repeat_char c n) = n.
Proof. induction n as [|n IH]; cbn; [reflexivity|now rewrite IH]. Qed.

Lemma count_char_append (c : ascii) (a b : string) :
  count_char c (a +:+ b) = (count_char c a + count_char c b)%nat.
Proof.
  induction a as [|x a IH]; [reflexivity|].
  rewrite append_cons. cbn. rewrite IH. lia.
Qed.

(** [split] returns one field more than there are separators *)
Lemma split_length (sep : ascii) (s : string) :
  length (Str.split sep s) = S (count_char sep s).
Proof.
  induction s as [|c s IH]; [reflexivity|]. cbn.
  destruct (Ascii.eqb c sep); cbn; [now rewrite IH|].
  destruct (Str.split sep s) as [|w ws]; [discriminate IH|exact IH].
Qed.

Lemma split_no_sep (sep : ascii) (s : string) :
  count_char sep s = 0%nat -> Str.split sep s = [s].
Proof.
  induction s as [|c s IH]; [reflexivity|]. cbn.
  destruct (Ascii.eqb c sep); [discriminate|]. cbn. intros H. now rewrite IH.
Qed.

Lemma split_app (sep : ascii) (a t : string) :
  count_char sep a = 0%nat ->
  Str.split sep (a +:+ String sep t) = a :: Str.split sep t.
Proof.
  induction a as [|c a IH].
  - intros _. rewrite append_nil. cbn. now rewrite Ascii.eqb_refl.
  - rewrite append_cons. cbn. destruct (Ascii.eqb c sep); [discriminate|]. cbn.
    intros H. now rewrite IH.
Qed.

(** splitting a joined list gives the list back when no element holds
    the separator *)
Lemma split_join (sep : ascii) (l : list string) :
  l ≠ [] -> Forall (λ s, count_char sep s = 0%nat) l ->
  Str.split sep (Str.join (String sep "") l) = l.
Proof.
  induction l as [|a l IH]; [contradiction|]. intros _ Hall.
  inversion Hall as [|? ? Ha Hl]; subst.
  destruct l as [|b l]; [now apply split_no_sep|].
  change (Str.join (String sep "") (a :: b :: l))
    with (a +:+ String sep "" +:+ Str.join (String sep "") (b :: l)).
  rewrite append_cons, append_nil.
  rewrite split_app by exact Ha. f_equal. apply IH; [discriminate|exact Hl].
Qed.

End Strings.

(** X1. [parse_point] returns a sample exactly when the token holds
    exactly two commas. *)
Theorem parse_point_two_commas (text : string) :
  (∃ pt : Sample, parse_point text = Ok pt) ↔ count_char "," text = 2%nat.
Proof.
  pose proof (split_length "," text) as Hlen.
  split.
  - intros [pt Hpt].
    destruct (decide (length (Str.split "," text) = 3%nat)) as [H|H]; [lia|].
    rewrite (parse_point_bad text H) in Hpt. discriminate.
  - intros H. rewrite parse_point_ok by lia. eauto.
Qed.

(** X2. The three fields of a token are parsed independently and stored
    under [cpu_pct], [throughput] and [latency], in this order; the
    sample has these three keys and no other, so [normalized_throughput]
    is absent until [add_normalized] runs. *)
Theorem parse_point_fields :
  (∀ a b c : string,
     count_char "," a = 0%nat -> count_char "," b = 0%nat -> count_char "," c = 0%nat ->
     parse_point (a +:+ "," +:+ b +:+ "," +:+ c)
     = Ok (sample (parse_num a) (parse_num b) (parse_num c)))
  ∧ (∀ (text : string) (pt : Sample),
       parse_point text = Ok pt ->
       (∀ k : string, is_Some (pt !! k) ↔ k ∈ raw_keys)
       ∧ pt !! "normalized_throughput" = None).
Proof.
  split.
  - intros a b c Ha Hb Hc.
    assert (Str.split "," (a +:+ "," +:+ b +:+ "," +:+ c) = [a; b; c]) as Hsplit.
    { rewrite append_cons, append_nil, split_app by exact Ha.
      rewrite append_cons, append_nil, split_app by exact Hb.
      now rewrite split_no_sep by exact Hc. }
    unfold parse_point. rewrite Hsplit. reflexivity.
  - intros text pt Hpt.
    destruct (decide (length (Str.split "," text) = 3%nat)) as [H|H];
      [|rewrite (parse_point_bad text H) in Hpt; discriminate].
    rewrite (parse_point_ok text H) in Hpt. injection Hpt as <-.
    split; [|reflexivity].
    intros k. unfold sample, raw_keys. rewrite !lookup_insert_is_Some.
    rewrite lookup_empty, !elem_of_cons, elem_of_nil.
    assert (is_Some (@None (option float)) ↔ False) as ->
      by (split; [apply is_Some_None|tauto]).
    destruct (decide ("latency" = k)), (decide ("throughput" = k)),
      (decide ("cpu_pct" = k)); subst; try discriminate; intuition congruence.
Qed.

(** the theorem of X2 at the token ["25,82000.0,640.0"] *)
Lemma parse_point_fields_witness :
  parse_point ("25" +:+ "," +:+ "82000.0" +:+ "," +:+ "640.0")
  = Ok (sample (parse_num "25") (parse_num "82000.0") (parse_num "640.0")).
Proof.
  exact (proj1 parse_point_fields "25" "82000.0" "640.0" eq_refl eq_refl eq_refl).
Defined.

(** ** The text of a float *)

Section FloatText.

Import Str.

Lemma all_chars_append (p : ascii -> bool) (a b : string) :
  all_chars p (a +:+ b) = all_chars p a && all_chars p b.
Proof.
  induction a as [|x a IH]; [reflexivity|].
  rewrite append_cons. cbn. rewrite IH. now rewrite andb_assoc.
Qed.

Lemma all_chars_substring (p : ascii -> bool) (s : string) (n m : nat) :
  all_chars p s = true -> all_chars p (substring n m s) = true.
Proof.
  revert n m. induction s as [|c s IH]; intros n m H.
  - destruct n, m; reflexivity.
  - cbn in H. apply andb_true_iff in H as [Hc Hs].
    destruct n as [|n]; [destruct m as [|m]; [reflexivity|]|]; cbn.
    + rewrite Hc. now apply IH.
    + now apply IH.
Qed.

Lemma all_chars_repeat (p : ascii -> bool) (c : ascii) (n : nat) :
  p c = true -> all_chars p (repeat_char c n) = true.
Proof. intros H. induction n as [|n IH]; cbn; [reflexivity|]. now rewrite H. Qed.

Lemma all_chars_drop_trailing_zeros (p : ascii -> bool) (s : string) :
  all_chars p s = true -> all_chars p (drop_trailing_zeros s) = true.
Proof.
  induction s as [|c s IH]; [reflexivity|]. cbn. intros H.
  apply andb_true_iff in H as [Hc Hs]. specialize (IH Hs).
  destruct (drop_trailing_zeros s) as [|d r].
  - destruct (Ascii.eqb c "0"); cbn; [reflexivity|now rewrite Hc].
  - cbn in *. now rewrite Hc.
Qed.

Lemma plain_string_of_uint (d : Decimal.uint) :
  all_chars plain_char (NilEmpty.string_of_uint d) = true.
Proof. induction d; cbn; auto. Qed.

Lemma plain_string_of_Z (n : Z) : all_chars plain_char (string_of_Z n) = true.
Proof.
  unfold string_of_Z, string_of_N, NilZero.string_of_uint.
  destruct (N.to_uint (Z.to_N n)); try reflexivity;
    apply (plain_string_of_uint (_ _)).
Qed.

Lemma plain_sign_prefix (s : bool) : all_chars plain_char (sign_prefix s) = true.
Proof. now destruct s. Qed.

Lemma plain_fixed_point (p : nat) (n : Z) : all_chars plain_char (fixed_point p n) = true.
Proof.
  unfold fixed_point.
  set (s := repeat_char "0" (S p - String.length (string_of_Z n)) +:+ string_of_Z n).
  assert (all_chars plain_char s = true) as Hs.
  { unfold s. rewrite all_chars_append, all_chars_repeat, plain_string_of_Z; reflexivity. }
  destruct p as [|p]; [exact Hs|].
  rewrite !all_chars_append, !all_chars_substring by exact Hs. reflexivity.
Qed.

(** the text written by [f"{x:.pf}"] holds digits, a point, a sign, or
    the letters of [inf] and [nan] *)
Lemma plain_format_f (p : nat) (x : float) : all_chars plain_char (format_f p x) = true.
Proof.
  destruct x as [s|s| |s m e]; cbn [format_f]; try reflexivity;
    rewrite all_chars_append, plain_sign_prefix; cbn [andb];
    first [reflexivity | apply plain_fixed_point].
Qed.

Lemma plain_repr_layout (ds : string) (decpt : Z) :
  all_chars plain_char ds = true -> all_chars plain_char (repr_layout ds decpt) = true.
Proof.
  intros Hds. unfold repr_layout.
  assert (∀ n m, all_chars plain_char (substring n m ds) = true) as Hsub
    by (intros; now apply all_chars_substring).
  assert (∀ n, all_chars plain_char (two_digits n) = true) as Htwo.
  { intros n. unfold two_digits. destruct (n <? 10);
      [rewrite all_chars_append|]; rewrite plain_string_of_Z; reflexivity. }
  destruct ((decpt <=? -4) || (16 <? decpt)).
  - rewrite !all_chars_append, Hsub, Htwo.
    destruct (1 <? Z.of_nat (String.length ds));
      [rewrite all_chars_append, Hsub|]; destruct (decpt - 1 <? 0); reflexivity.
  - destruct (decpt <=? 0).
    + rewrite !all_chars_append, all_chars_repeat, Hds; reflexivity.
    + destruct (Z.of_nat (String.length ds) <=? decpt).
      * rewrite !all_chars_append, all_chars_repeat, Hds; reflexivity.
      * rewrite !all_chars_append, !Hsub. reflexivity.
Qed.

(** so does the text written by [repr] *)
Lemma plain_repr (x : float) : all_chars plain_char (repr x) = true.
Proof.
  destruct x as [s|s| |s m e]; cbn [repr]; try reflexivity;
    try (rewrite all_chars_append, plain_sign_prefix; reflexivity).
  unfold shortest_digits.
  destruct (shortest_from _ _ _ _ _ _ _) as [d n].
  rewrite all_chars_append, plain_sign_prefix. cbn [andb].
  apply plain_repr_layout, all_chars_drop_trailing_zeros, plain_string_of_Z.
Qed.

Lemma plain_count (x : ascii) (s : string) :
  plain_char x = false -> all_chars plain_char s = true -> count_char x s = 0%nat.
Proof.
  intros Hx. induction s as [|c s IH]; [reflexivity|]. cbn. intros H.
  apply andb_true_iff in H as [Hc Hs]. rewrite (IH Hs).
  destruct (Ascii.eqb_spec c x) as [->|_]; [congruence|reflexivity].
Qed.

Lemma append_nonempty_r (a b : string) : b ≠ "" -> a +:+ b ≠ "".
Proof.
  intros Hb H. apply (f_equal String.length) in H. rewrite length_append in H.
  destruct b; [contradiction|]. cbn in H. lia.
Qed.

Lemma fixed_point_nonempty (p : nat) (n : Z) : fixed_point p n ≠ "".
Proof.
  unfold fixed_point. destruct p as [|p].
  - intros H. apply (f_equal String.length) in H.
    rewrite length_append, length_repeat_char in H. cbn in H. lia.
  - apply append_nonempty_r. discriminate.
Qed.

(** a formatted float is never the empty string *)
Lemma format_f_nonempty (p : nat) (x : float) : format_f p x ≠ "".
Proof.
  destruct x as [s|s| |s m e]; cbn [format_f]; try discriminate;
    apply append_nonempty_r; first [discriminate | apply fixed_point_nonempty].
Qed.

Lemma repr_layout_nonempty (ds : string) (decpt : Z) : repr_layout ds decpt ≠ "".
Proof.
  unfold repr_layout.
  destruct ((decpt <=? -4) || (16 <? decpt)).
  - do 2 apply append_nonempty_r. discriminate.
  - destruct (decpt <=? 0); [discriminate|].
    destruct (Z.of_nat (String.length ds) <=? decpt).
    + do 2 apply append_nonempty_r. discriminate.
    + apply append_nonempty_r. discriminate.
Qed.

Lemma repr_nonempty (x : float) : repr x ≠ "".
Proof.
  destruct x as [s|s| |s m e]; cbn [repr]; try discriminate;
    try (apply append_nonempty_r; discriminate).
  destruct (shortest_digits m e) as [ds decpt].
  apply append_nonempty_r, repr_layout_nonempty.
Qed.

End FloatText.

(** ** The loops of the renderers *)

Section RenderLoops.

Lemma for_points_fold {St : Type} (body : St -> dictM St) (step : St -> Sample -> St)
    (pts : list Sample) (st : St) :
  (∀ st pt, pt ∈ pts -> body st pt = (pt, Ok (step st pt))) ->
  for_points body pts st = (pts, fold_left step pts st, Ok tt).
Proof.
  revert st. induction pts as [|pt pts IH]; intros st Hbody; [reflexivity|].
  cbn [for_points fold_left]. rewrite Hbody by left.
  rewrite IH; [reflexivity|]. intros st' pt' Hin. apply Hbody. now right.
Qed.

Lemma for_points_raise {St : Type} (body : St -> dictM St) (step : St -> Sample -> St)
    (good : list Sample) (pt : Sample) (rest : list Sample) (st : St) (e : exn) :
  (∀ st p, p ∈ good -> body st p = (p, Ok (step st p))) ->
  (∀ st, body st pt = (pt, Raise e)) ->
  for_points body (good ++ pt :: rest)%list st
  = ((good ++ pt :: rest)%list, fold_left step good st, Raise e).
Proof.
  intros Hgood Hbad. revert st. induction good as [|p good IH]; intros st.
  - cbn. now rewrite Hbad.
  - cbn [app for_points fold_left]. rewrite Hgood by left.
    rewrite IH; [reflexivity|]. intros st' p' Hin. apply Hgood. now right.
Qed.

Lemma field_lookup (pt : Sample) (k : string) (v : option float) :
  pt !! k = Some v -> field pt k = v.
Proof. intros H. unfold field. now rewrite H. Qed.

Lemma csv_row_fields (pt : Sample) :
  well_keyed pt -> csv_row pt = (pt, Ok (csv_fields pt)).
Proof.
  intros H.
  destruct (H "cpu_pct") as [c Hc]; [repeat constructor|].
  destruct (H "throughput") as [t Ht]; [repeat constructor|].
  destruct (H "latency") as [l Hl]; [repeat constructor|].
  unfold csv_row, csv_fields, mbind, dictM_bind, getitem, get.
  rewrite Hc, Ht, Hl. cbn.
  now rewrite (field_lookup _ _ _ Hc), (field_lookup _ _ _ Ht), (field_lookup _ _ _ Hl).
Qed.

Lemma table_row_line (pt : Sample) :
  well_keyed pt -> table_row pt = (pt, Ok (table_line pt)).
Proof.
  intros H.
  destruct (H "cpu_pct") as [c Hc]; [repeat constructor|].
  destruct (H "throughput") as [t Ht]; [repeat constructor|].
  destruct (H "latency") as [l Hl]; [repeat constructor|].
  unfold table_row, table_line, mbind, dictM_bind, getitem, get.
  rewrite Hc, Ht, Hl. cbn.
  now rewrite (field_lookup _ _ _ Hc), (field_lookup _ _ _ Ht), (field_lookup _ _ _ Hl).
Qed.

Lemma first_missing_cases (pt : Sample) (k : string) :
  first_missing pt = Some k ->
  pt !! k = None
  ∧ ((k = "cpu_pct")
     ∨ (k = "throughput" ∧ is_Some (pt !! "cpu_pct"))
     ∨ (k = "latency" ∧ is_Some (pt !! "cpu_pct") ∧ is_Some (pt !! "throughput"))).
Proof.
  unfold first_missing, raw_keys. cbn [List.find].
  destruct (pt !! "cpu_pct") as [c|] eqn:Hc; [|intros [= <-]; auto].
  destruct (pt !! "throughput") as [t|] eqn:Ht; [|intros [= <-]; eauto 6].
  destruct (pt !! "latency") as [l|] eqn:Hl; [discriminate|intros [= <-]; eauto 8].
Qed.

Lemma first_missing_none (pt : Sample) : first_missing pt = None ↔ well_keyed pt.
Proof.
  unfold first_missing, raw_keys, well_keyed. cbn [List.find]. split.
  - intros H k Hk.
    destruct (pt !! "cpu_pct") eqn:Hc; [|discriminate].
    destruct (pt !! "throughput") eqn:Ht; [|discriminate].
    destruct (pt !! "latency") eqn:Hl; [|discriminate].
    repeat (apply elem_of_cons in Hk as [->|Hk]; [eauto|]). inversion Hk.
  - intros H.
    destruct (H "cpu_pct") as [c ->]; [repeat constructor|].
    destruct (H "throughput") as [t ->]; [repeat constructor|].
    destruct (H "latency") as [l ->]; [repeat constructor|]. reflexivity.
Qed.

Lemma csv_row_missing (pt : Sample) (k : string) :
  first_missing pt = Some k -> csv_row pt = (pt, Raise (KeyError k)).
Proof.
  intros H. destruct (first_missing_cases pt k H) as [Hk Hcases].
  unfold csv_row, mbind, dictM_bind, getitem.
  destruct Hcases as [->|[[-> [c Hc]]|[-> [[c Hc] [t Ht]]]]].
  - now rewrite Hk.
  - now rewrite Hc, Hk.
  - now rewrite Hc, Ht, Hk.
Qed.

Lemma table_row_missing (pt : Sample) (k : string) :
  first_missing pt = Some k -> table_row pt = (pt, Raise (KeyError k)).
Proof.
  intros H. destruct (first_missing_cases pt k H) as [Hk Hcases].
  unfold table_row, mbind, dictM_bind, getitem.
  destruct Hcases as [->|[[-> [c Hc]]|[-> [[c Hc] [t Ht]]]]].
  - now rewrite Hk.
  - now rewrite Hc, Hk.
  - now rewrite Hc, Ht, Hk.
Qed.

Lemma fold_writerow (pts : list Sample) (fh : string) :
  fold_left (λ fh pt, writerow (csv_fields pt) fh) pts fh
  = fh +:+ concat_all ((λ pt, csv_line (csv_fields pt)) <$> pts).
Proof.
  revert fh. induction pts as [|pt pts IH]; intros fh; cbn [fold_left].
  - cbn. now rewrite append_empty_r.
  - rewrite IH. unfold writerow. cbn [fmap list_fmap concat_all].
    fold (csv_line (csv_fields pt)). now rewrite append_assoc.
Qed.

Lemma fold_print (pts : list Sample) (out : string) :
  fold_left (λ out pt, print (table_line pt) out) pts out
  = out +:+ concat_all ((λ pt, table_line pt +:+ nl) <$> pts).
Proof.
  revert out. induction pts as [|pt pts IH]; intros out; cbn [fold_left].
  - cbn. now rewrite append_empty_r.
  - rewrite IH. unfold print. cbn [fmap list_fmap concat_all].
    now rewrite append_assoc.
Qed.

Lemma length_ljust (w : nat) (s : string) :
  String.length (Str.ljust w s) = Nat.max w (String.length s).
Proof. unfold Str.ljust. rewrite length_append, length_repeat_char. lia. Qed.

Lemma write_csv_eq (points : list Sample) (fh : string) :
  Forall well_keyed points ->
  write_csv points fh
  = (points,
     fh +:+ csv_line csv_header
     +:+ concat_all ((λ pt, csv_line (csv_fields pt)) <$> points),
     Ok tt).
Proof.
  intros Hk. unfold write_csv.
  rewrite (for_points_fold _ (λ fh pt, writerow (csv_fields pt) fh)).
  - rewrite fold_writerow. unfold writerow. fold (csv_line csv_header).
    now rewrite append_assoc.
  - intros st pt Hin. unfold mbind, dictM_bind.
    rewrite csv_row_fields; [reflexivity|].
    exact (proj1 (Forall_forall _ _) Hk pt Hin).
Qed.

Lemma print_table_eq (points : list Sample) (out : string) :
  Forall well_keyed points ->
  print_table points out
  = (points,
     out +:+ fmt "CPU avail" "Throughput" "Latency" "NormThr" +:+ nl
     +:+ Str.repeat_char "-" 48 +:+ nl
     +:+ concat_all ((λ pt, table_line pt +:+ nl) <$> points),
     Ok tt).
Proof.
  intros Hk. unfold print_table.
  rewrite (for_points_fold _ (λ out pt, print (table_line pt) out)).
  - rewrite fold_print. unfold print. change (foldr Nat.add 0%nat widths) with 48%nat.
    now rewrite !append_assoc.
  - intros st pt Hin. unfold mbind, dictM_bind.
    rewrite table_row_line; [reflexivity|].
    exact (proj1 (Forall_forall _ _) Hk pt Hin).
Qed.

End RenderLoops.

(** X3. On samples that have their three raw keys, [write_csv] returns
    normally, keeps what the file held, and appends the header line and
    then one line per sample, in the order of the list, each line being
    the five fields joined by commas and ended by CR LF. *)
Theorem write_csv_layout (points : list Sample) (fh : string) :
  Forall well_keyed points ->
  write_csv points fh
  = (points,
     fh +:+ csv_line csv_header
     +:+ concat_all ((λ pt, csv_line (csv_fields pt)) <$> points),
     Ok tt).
Proof. apply write_csv_eq. Qed.

(** the theorem of X3 at the samples of the end-to-end scenario *)
Lemma write_csv_layout_witness :
  write_csv scenario_points ""
  = (scenario_points,
     "" +:+ csv_line csv_header
     +:+ concat_all ((λ pt, csv_line (csv_fields pt)) <$> scenario_points),
     Ok tt).
Proof.
  apply write_csv_layout. repeat constructor; apply well_keyed_sample.
Defined.

(** X4. When a sample lacks one of its raw keys, [write_csv] and
    [print_table] raise [KeyError] for the first key missing in the order
    [cpu_pct], [throughput], [latency]; the lines of the samples before
    it are already written, nothing is written for it or for the samples
    after it, and the list is unchanged. *)
Theorem renderers_raise_key_error
    (good : list Sample) (pt : Sample) (rest : list Sample) (k : string) (fh : string) :
  Forall well_keyed good -> first_missing pt = Some k ->
  write_csv (good ++ pt :: rest)%list fh
  = ((good ++ pt :: rest)%list,
     fh +:+ csv_line csv_header +:+ concat_all ((λ pt, csv_line (csv_fields pt)) <$> good),
     Raise (KeyError k))
  ∧ print_table (good ++ pt :: rest)%list fh
    = ((good ++ pt :: rest)%list,
       fh +:+ fmt "CPU avail" "Throughput" "Latency" "NormThr" +:+ nl
       +:+ Str.repeat_char "-" 48 +:+ nl
       +:+ concat_all ((λ pt, table_line pt +:+ nl) <$> good),
       Raise (KeyError k)).
Proof.
  intros Hk Hmiss. split.
  - unfold write_csv.
    rewrite (for_points_raise _ (λ fh pt, writerow (csv_fields pt) fh) _ _ _ _
               (KeyError k)).
    + rewrite fold_writerow. unfold writerow. fold (csv_line csv_header).
      now rewrite append_assoc.
    + intros st p Hin. unfold mbind, dictM_bind.
      rewrite csv_row_fields; [reflexivity|].
      exact (proj1 (Forall_forall _ _) Hk p Hin).
    + intros st. unfold mbind, dictM_bind. now rewrite (csv_row_missing pt k Hmiss).
  - unfold print_table.
    rewrite (for_points_raise _ (λ out pt, print (table_line pt) out) _ _ _ _
               (KeyError k)).
    + rewrite fold_print. unfold print. change (foldr Nat.add 0%nat widths) with 48%nat.
      now rewrite !append_assoc.
    + intros st p Hin. unfold mbind, dictM_bind.
      rewrite table_row_line; [reflexivity|].
      exact (proj1 (Forall_forall _ _) Hk p Hin).
    + intros st. unfold mbind, dictM_bind. now rewrite (table_row_missing pt k Hmiss).
Qed.

(** the theorem of X4 at a list whose second sample has no [throughput] *)
Lemma renderers_raise_key_error_witness :
  (write_csv ([sample (Some zero) (Some one) (Some one)]
              ++ <["cpu_pct" := Some one]> ∅ :: [])%list "").2
  = Raise (KeyError "throughput").
Proof.
  rewrite (proj1 (renderers_raise_key_error
                    [sample (Some zero) (Some one) (Some one)]
                    (<["cpu_pct" := Some one]> ∅) [] "throughput" ""
                    ltac:(repeat constructor; apply well_keyed_sample)
                    ltac:(vm_compute; reflexivity))).
  reflexivity.
Defined.

(** X5. Every field that [write_csv] writes holds only digits, a point,
    a sign and the letters of [e], [inf] and [nan]: no comma, no quote
    and no line break, so no field is ever quoted, and splitting a
    written row on the commas gives back its five fields. *)
Theorem csv_fields_are_plain (pt : Sample) :
  Forall (λ f, all_chars plain_char f = true) (csv_fields pt)
  ∧ Forall (λ f, count_char "," f = 0%nat ∧ count_char (ascii_of_N 34) f = 0%nat
                 ∧ count_char (ascii_of_N 13) f = 0%nat
                 ∧ count_char (ascii_of_N 10) f = 0%nat) (csv_fields pt)
  ∧ length (csv_fields pt) = 5%nat
  ∧ Str.split "," (Str.join "," (csv_fields pt)) = csv_fields pt.
Proof.
  assert (Forall (λ f, all_chars plain_char f = true) (csv_fields pt)) as Hplain.
  { unfold csv_fields.
    repeat constructor;
      match goal with
      | |- all_chars _ (if_none _ _ ?o) = true =>
          destruct o; cbn [if_none];
          first [reflexivity | apply plain_repr | apply plain_format_f]
      end. }
  split; [exact Hplain|]. split; [|split; [reflexivity|]].
  - eapply Forall_impl; [exact Hplain|]. intros f Hf.
    repeat split; apply plain_count; auto.
  - apply split_join; [discriminate|].
    eapply Forall_impl; [exact Hplain|]. intros f Hf. now apply plain_count.
Qed.

(** X6. In a CSV row a field is empty exactly when its value is [None]
    (or, for [normalized_throughput], absent): a present value is never
    written as the empty string. *)
Theorem csv_field_empty_iff_none (pt : Sample) :
  ∃ f1 f2 f3 f4 f5 : string,
    csv_fields pt = [f1; f2; f3; f4; f5]
    ∧ (f1 = "" ↔ field pt "cpu_pct" = None)
    ∧ (f2 = "" ↔ field pt "cpu_pct" = None)
    ∧ (f3 = "" ↔ field pt "throughput" = None)
    ∧ (f4 = "" ↔ field pt "latency" = None)
    ∧ (f5 = "" ↔ field pt "normalized_throughput" = None).
Proof.
  do 5 eexists. split; [reflexivity|].
  destruct (field pt "cpu_pct") as [c|], (field pt "throughput") as [t|],
    (field pt "latency") as [l|], (field pt "normalized_throughput") as [n|];
    cbn [if_none fmap option_fmap option_map];
    repeat split; intros H;
    first [reflexivity | discriminate H
          | exfalso; revert H; first [apply repr_nonempty | apply format_f_nonempty]].
Qed.

(** X7. On samples that have their raw keys, [print_table] keeps what
    was printed before and prints the header, a rule of 48 dashes, and
    one line per sample in the order of the list.  A line never cuts a
    value: its length is the sum of the lengths of its four columns,
    each at least its width (12, 14, 12, 10), plus three spaces, so it
    has at least 51 characters. *)
Theorem print_table_layout :
  (∀ (points : list Sample) (out : string),
     Forall well_keyed points ->
     print_table points out
     = (points,
        out +:+ fmt "CPU avail" "Throughput" "Latency" "NormThr" +:+ nl
        +:+ Str.repeat_char "-" 48 +:+ nl
        +:+ concat_all ((λ pt, table_line pt +:+ nl) <$> points),
        Ok tt))
  ∧ (∀ a b c d : string,
       String.length (fmt a b c d)
       = (Nat.max 12 (String.length a) + Nat.max 14 (String.length b)
          + Nat.max 12 (String.length c) + Nat.max 10 (String.length d) + 3)%nat).
Proof.
  split; [apply print_table_eq|].
  intros a b c d. unfold fmt.
  rewrite !length_append, !length_ljust. cbn. lia.
Qed.

(** the theorem of X7 at the samples of the end-to-end scenario *)
Lemma print_table_layout_witness :
  (print_table scenario_points "").2 = Ok tt.
Proof.
  rewrite (proj1 print_table_layout scenario_points ""
             ltac:(repeat constructor; apply well_keyed_sample)).
  reflexivity.
Defined.

(** ** The chart *)

Section Chart.

Lemma ltb_leb (x y : float) : ltb x y = true -> leb x y = true.
Proof.
  intros H. destruct (ltb_not_nan _ _ H) as [Hx Hy].
  apply not_ltb_leb; auto. now apply ltb_asym.
Qed.

Lemma leb_refl (x : float) : is_nan x = false -> leb x x = true.
Proof. intros H. apply not_ltb_leb; auto. apply ltb_irrefl. Qed.

Lemma max2_spec (a h : float) :
  is_nan a = false -> is_nan h = false ->
  is_nan (max2 a h) = false ∧ leb a (max2 a h) = true ∧ leb h (max2 a h) = true
  ∧ (max2 a h = a ∨ max2 a h = h).
Proof.
  intros Ha Hh. unfold max2, gtb.
  destruct (SFltb a h) eqn:E.
  - repeat split; auto. + now apply ltb_leb. + now apply leb_refl.
  - repeat split; auto. + now apply leb_refl. + now apply not_ltb_leb.
Qed.

Lemma fold_max2_spec (l : list float) (a : float) :
  is_nan a = false -> (∀ h, h ∈ l -> is_nan h = false) ->
  leb a (fold_left max2 l a) = true
  ∧ (∀ h, h ∈ l -> leb h (fold_left max2 l a) = true)
  ∧ (fold_left max2 l a = a ∨ fold_left max2 l a ∈ l).
Proof.
  revert a. induction l as [|h l IH]; intros a Ha Hl; cbn [fold_left].
  - split; [now apply leb_refl|]. split; [intros h Hh; inversion Hh|now left].
  - destruct (max2_spec a h Ha (Hl h ltac:(left))) as (Hn & H1 & H2 & H3).
    destruct (IH (max2 a h) Hn) as (H4 & H5 & H6).
    { intros h' Hh'. apply Hl. now right. }
    split; [eapply leb_trans; eauto|]. split.
    + intros h' Hh'. apply elem_of_cons in Hh' as [->|Hh']; [|now apply H5].
      eapply leb_trans; eauto.
    + destruct H6 as [H6|H6]; [|right; now right].
      rewrite H6. destruct H3 as [->| ->]; [now left|right; left].
Qed.

Lemma bar_height_annotate (lh : string * float) : bar_height (annotate lh) = lh.2.
Proof. destruct lh as [l h]. unfold annotate. now destruct (leb h zero). Qed.

Lemma bar_label_annotate (lh : string * float) : bar_label (annotate lh) = lh.1.
Proof. destruct lh as [l h]. unfold annotate. now destruct (leb h zero). Qed.

Lemma insert_keyed_head (x : float * Sample) (l : list (float * Sample)) :
  Forall (key_le x) l -> insert_keyed x l = x :: l.
Proof.
  destruct l as [|y l]; [reflexivity|]. intros H. inversion H as [|? ? Hy _]; subst.
  cbn. unfold key_le in Hy. now rewrite Hy.
Qed.

(** a list in ascending order of the keys is left as it is *)
Lemma sort_keyed_id (l : list (float * Sample)) :
  StronglySorted key_le l -> sort_keyed l = l.
Proof.
  induction 1 as [|x l Hs IH Hx]; [reflexivity|].
  cbn [sort_keyed]. rewrite IH. now apply insert_keyed_head.
Qed.

Lemma keyed_strongly_sorted (pts : list Sample) :
  StronglySorted (λ a b : Sample, ltb (key_of b) (key_of a) = false) pts ->
  StronglySorted key_le ((λ pt, (key_of pt, pt)) <$> pts).
Proof.
  induction 1 as [|pt pts Hs IH Hpt]; [constructor|].
  cbn [fmap list_fmap]. constructor; [exact IH|].
  apply Forall_fmap. eapply Forall_impl; [exact Hpt|]. now intros.
Qed.

Lemma rekey (l : list (float * Sample)) :
  Forall (λ p : float * Sample, p.1 = key_of p.2) l ->
  (λ pt, (key_of pt, pt)) <$> l.*2 = l.
Proof.
  induction 1 as [|[k pt] l Hp _ IH]; [reflexivity|].
  cbn in *. now rewrite IH, Hp.
Qed.

End Chart.

(** X8. On samples that have their raw keys and whose [cpu_pct] is
    never [nan], [plot] has five outcomes.  Without matplotlib it writes
    its note on the error stream and returns [False].  With an empty
    list it returns [False] and writes nothing.  Otherwise the bars
    stand in the order given by [sorted], one per sample, and the limit
    of the y axis is 1.1 times the greatest of the heights and 100.  If
    this limit is [nan] or infinite, [plt.ylim] raises its [ValueError],
    which leaves [plot] with nothing written.  If [tight_layout] or
    [savefig] raise, the exception leaves [plot] and nothing is written.
    Otherwise [plot] returns [True], the chart is written under the
    path, and the path is reported on standard output. *)
Theorem plot_outcomes (w : World) (pts : list Sample) (path : string) (o : Out) :
  Forall well_keyed pts ->
  (∀ (pt : Sample) (c : float),
     pt ∈ pts -> field pt "cpu_pct" = Some c -> is_nan c = false) ->
  match matplotlib_error w, pts with
  | Some exc, _ =>
      plot w pts path o
      = (write_stderr ("Plotting skipped (matplotlib unavailable): " +:+ exc +:+ nl) o,
         Ok false)
  | None, [] => plot w pts path o = (o, Ok false)
  | None, _ :: _ =>
      ∃ (s : list Sample) (top : float),
        sorted sort_key pts = Ok s
        ∧ Permutation s pts
        ∧ max_list ((height_of <$> s) ++ [hundred]) = Ok top
        ∧ plot w pts path o
          = if is_finite (mul top one_point_one) then
              match savefig_error w path with
              | Some e => (o, Raise e)
              | None =>
                  (write_stdout ("Wrote plot to " +:+ path +:+ nl)
                     (set_chart_file path
                        {| bars := chart_bar <$> s; ylim_top := mul top one_point_one |}
                        o),
                   Ok true)
              end
            else (o, Raise (ValueError "Axis limits cannot be NaN or Inf"))
  end.
Proof. intros Hk _. now apply plot_cases. Qed.

(** the theorem of X8 at the samples of the end-to-end scenario, whose
    [cpu_pct] are 0 and 25 *)
Lemma plot_outcomes_witness :
  ∃ (s : list Sample) (top : float),
    sorted sort_key scenario_points = Ok s
    ∧ Permutation s scenario_points
    ∧ max_list ((height_of <$> s) ++ [hundred]) = Ok top
    ∧ plot fair_world scenario_points "chart.png" no_output
      = if is_finite (mul top one_point_one) then
          (write_stdout ("Wrote plot to " +:+ "chart.png" +:+ nl)
             (set_chart_file "chart.png"
                {| bars := chart_bar <$> s; ylim_top := mul top one_point_one |}
                no_output),
           Ok true)
        else (no_output, Raise (ValueError "Axis limits cannot be NaN or Inf")).
Proof.
  refine (plot_outcomes fair_world scenario_points "chart.png" no_output _ _).
  - repeat constructor; apply well_keyed_sample.
  - intros pt c Hin Hc. unfold scenario_points in Hin.
    repeat (apply elem_of_cons in Hin as [->|Hin];
            [vm_compute in Hc; injection Hc as <-; reflexivity|]).
    inversion Hin.
Defined.

(** X9. [sorted] with [sort_key] leaves a list that is already in
    ascending order of the keys as it is, samples with equal keys
    included; so for samples whose [cpu_pct] is never [nan], sorting the
    sorted list again changes nothing. *)
Theorem sorted_keeps_ascending :
  (∀ pts : list Sample,
     Forall well_keyed pts ->
     StronglySorted (λ a b : Sample, ltb (key_of b) (key_of a) = false) pts ->
     sorted sort_key pts = Ok pts)
  ∧ (∀ pts s : list Sample,
       Forall well_keyed pts ->
       (∀ (pt : Sample) (c : float),
          pt ∈ pts -> field pt "cpu_pct" = Some c -> is_nan c = false) ->
       sorted sort_key pts = Ok s -> sorted sort_key s = Ok s).
Proof.
  split.
  - intros pts Hk Hs. rewrite (sorted_eq pts Hk).
    rewrite sort_keyed_id by now apply keyed_strongly_sorted.
    rewrite <- list_fmap_compose.
    rewrite (list_fmap_ext _ id pts); [now rewrite list_fmap_id|now intros].
  - intros pts s Hk Hnan Hs. rewrite (sorted_eq pts Hk) in Hs. injection Hs as <-.
    set (keyed := (λ pt, (key_of pt, pt)) <$> pts).
    assert (Forall well_keyed (sort_keyed keyed).*2) as Hks
      by (unfold keyed; now rewrite sorted_perm).
    rewrite (sorted_eq _ Hks).
    rewrite (rekey (sort_keyed keyed)) by apply sort_keyed_keys.
    rewrite sort_keyed_id; [reflexivity|].
    apply sort_keyed_sorted. apply Forall_fmap, Forall_forall. intros pt Hpt. cbn.
    unfold key_of. destruct (field pt "cpu_pct") as [c|] eqn:E; [eapply Hnan; eauto|reflexivity].
Qed.

(** the theorem of X9 at the samples of the end-to-end scenario, whose
    [cpu_pct] are 0 and 25 *)
Lemma sorted_keeps_ascending_witness :
  sorted sort_key scenario_points = Ok scenario_points.
Proof.
  apply (proj1 sorted_keeps_ascending).
  - repeat constructor; apply well_keyed_sample.
  - repeat constructor.
Defined.

(** X10. The value that [plot] scales the y axis from, the maximum of
    the heights and 100, is at least 100 and at least every height, when
    no height is [nan]; it is 100 or one of the heights. *)
Theorem ylim_covers_bars (heights : list float) :
  (∀ h : float, h ∈ heights -> is_nan h = false) ->
  ∃ top : float,
    max_list (heights ++ [hundred]) = Ok top
    ∧ leb hundred top = true
    ∧ (∀ h : float, h ∈ heights -> leb h top = true)
    ∧ (top = hundred ∨ top ∈ heights).
Proof.
  intros Hnan. destruct heights as [|a l].
  - exists hundred. repeat split; auto. intros h Hh. inversion Hh.
  - cbn [app max_list]. eexists. split; [reflexivity|].
    destruct (fold_max2_spec (l ++ [hundred]) a) as (H1 & H2 & H3).
    { apply Hnan. left. }
    { intros h Hh. apply elem_of_app in Hh as [Hh|Hh]; [apply Hnan; now right|].
      apply list_elem_of_singleton in Hh as ->. reflexivity. }
    split; [apply H2, elem_of_app; right; left|]. split.
    + intros h Hh. apply elem_of_cons in Hh as [->|Hh]; [exact H1|].
      apply H2, elem_of_app. now left.
    + destruct H3 as [->|H3]; [right; left|].
      apply elem_of_app in H3 as [H3|H3]; [right; now right|].
      apply list_elem_of_singleton in H3. now left.
Qed.

(** the theorem of X10 at the heights 100 and 82 *)
Lemma ylim_covers_bars_witness :
  ∃ top : float,
    max_list ([hundred; literal "82"] ++ [hundred]) = Ok top ∧ leb hundred top = true.
Proof.
  destruct (ylim_covers_bars [hundred; literal "82"]) as (top & H1 & H2 & _).
  - intros h Hh.
    repeat (apply elem_of_cons in Hh as [->|Hh]; [reflexivity|]). inversion Hh.
  - exists top. split; assumption.
Defined.

(** ** What [main] writes *)

Section MainOutput.

Lemma nonempty_true (s : string) : s ≠ "" -> nonempty s = true.
Proof.
  intros H. unfold nonempty. destruct (String.eqb_spec s ""); [contradiction|reflexivity].
Qed.

Lemma output_csv_step_ok (w : World) (args : Args) (pts : list Sample) (o : Out) :
  csv_fails w args = false -> Forall well_keyed pts ->
  output_csv_step w args pts o
  = (pts,
     match output_csv args with
     | Some path => if nonempty path then set_csv_file path (csv_text pts) o else o
     | None => o
     end, None).
Proof.
  intros Hcsv Hk. unfold csv_fails in Hcsv. unfold output_csv_step.
  destruct (output_csv args) as [path|]; [|reflexivity].
  destruct (nonempty path); [|reflexivity].
  destruct (open_error w path); [discriminate|].
  now rewrite (write_csv_eq pts "" Hk).
Qed.

Lemma format_step_rendering (w : World) (args : Args) (pts : list Sample) (o : Out) :
  Forall well_keyed pts ->
  format_step w args pts o
  = (pts, set_stdout (stdout o +:+ rendering w args pts) o, None).
Proof.
  intros Hk. unfold format_step, rendering. destruct (format args).
  - now rewrite (write_csv_eq pts (stdout o) Hk).
  - unfold write_stdout, set_stdout. cbn [stdout stderr csv_file chart_file].
    destruct (stdout_isatty w); [now rewrite append_empty_r|now rewrite append_assoc].
  - now rewrite (print_table_eq pts (stdout o) Hk).
Qed.

(** what the chart step writes: the line about the chart if it ends
    without an exception, the note about matplotlib, and nothing into
    the CSV file *)
Lemma plot_step_writes (w : World) (args : Args) (pts : list Sample) (o : Out) :
  Forall well_keyed pts -> length pts = length (points args) ->
  ((plot_step w args pts o).2 = None
   ∧ stdout (plot_step w args pts o).1.2 = stdout o +:+ plot_line w args
   ∨ (∃ e, (plot_step w args pts o).2 = Some (Uncaught e))
     ∧ stdout (plot_step w args pts o).1.2 = stdout o)
  ∧ stderr (plot_step w args pts o).1.2 = stderr o +:+ plot_note w args
  ∧ csv_file (plot_step w args pts o).1.2 = csv_file o.
Proof.
  intros Hk Hlen. unfold plot_step, plot_line, plot_note, plot_wanted.
  destruct (negb (no_plot args) && nonempty (plot_out args));
    [|cbn; rewrite !append_empty_r; auto].
  pose proof (plot_cases w pts (plot_out args) o Hk) as H.
  destruct (matplotlib_error w) as [exc|].
  { rewrite H. cbn. rewrite append_empty_r. auto. }
  destruct (points args) as [|t ts], pts as [|pt pts']; try discriminate Hlen.
  { rewrite H. cbn. rewrite !append_empty_r. auto. }
  destruct H as (s & top & _ & _ & _ & ->).
  destruct (is_finite (mul top one_point_one)).
  - destruct (savefig_error w (plot_out args)) as [e|]; cbn; rewrite !append_empty_r.
    + split; [right; eauto|auto].
    + split; [left; auto|auto].
  - cbn. rewrite !append_empty_r. split; [right; eauto|auto].
Qed.

Lemma output_csv_step_chart (w : World) (args : Args) (pts : list Sample) (o : Out) :
  chart_file (output_csv_step w args pts o).1.2 = chart_file o.
Proof.
  unfold output_csv_step.
  destruct (output_csv args) as [path|]; [|reflexivity].
  destruct (nonempty path); [|reflexivity].
  destruct (open_error w path); [reflexivity|].
  now destruct (write_csv pts "") as [[pts' text] [[]|e]].
Qed.

Lemma format_step_chart (w : World) (args : Args) (pts : list Sample) (o : Out) :
  chart_file (format_step w args pts o).1.2 = chart_file o.
Proof.
  unfold format_step. destruct (format args).
  - now destruct (write_csv pts (stdout o)) as [[pts' text] [[]|e]].
  - now destruct (stdout_isatty w).
  - now destruct (print_table pts (stdout o)) as [[pts' text] [[]|e]].
Qed.

Lemma output_csv_step_world (w w' : World) (args : Args) (pts : list Sample) (o : Out) :
  (∀ path, open_error w path = open_error w' path) ->
  output_csv_step w args pts o = output_csv_step w' args pts o.
Proof.
  intros H. unfold output_csv_step.
  destruct (output_csv args) as [path|]; [|reflexivity]. now rewrite H.
Qed.

Lemma format_step_world (w w' : World) (args : Args) (pts : list Sample) (o : Out) :
  stdout_isatty w = stdout_isatty w' ->
  format_step w args pts o = format_step w' args pts o.
Proof. intros H. unfold format_step. now rewrite H. Qed.

Lemma plot_step_unwanted (w : World) (args : Args) (pts : list Sample) (o : Out) :
  plot_wanted args = false -> plot_step w args pts o = (pts, o, None).
Proof. unfold plot_wanted, plot_step. now intros ->. Qed.

End MainOutput.

(** X11. When the arguments are well formed and the [--output-csv] file
    cannot be opened or written, [main] returns 1 with the diagnostic
    that names the path and the cause as the only thing written: nothing
    is on standard output, since the file is written before the table,
    and no chart is drawn. *)
Theorem csv_failure_stops_main (w : World) (args : Args) (path exc : string) :
  (∀ t : string, t ∈ points args -> length (Str.split "," t) = 3%nat) ->
  output_csv args = Some path -> path ≠ "" -> open_error w path = Some exc ->
  main w args
  = (write_stderr ("Failed to write CSV to " +:+ path +:+ ": " +:+ exc +:+ nl) no_output,
     Returned 1).
Proof.
  intros Hwf Hcsv Hpath Hopen.
  destruct (for_each_parse_ok _ Hwf) as (pts & Hparse & _ & _).
  unfold main, run_main. rewrite Hparse, add_normalized_eq.
  unfold and_then, output_csv_step.
  now rewrite Hcsv, (nonempty_true path Hpath), Hopen.
Qed.

(** the theorem of X11 at the end-to-end scenario with [--output-csv /proc/x] *)
Lemma csv_failure_stops_main_witness :
  main {| open_error := λ _, Some "Permission denied"; stdout_isatty := false;
          matplotlib_error := None; savefig_error := λ _, None |}
       {| points := points scenario; format := Csv; output_csv := Some "/proc/x";
          plot_out := "chart.png"; no_plot := false |}
  = (write_stderr ("Failed to write CSV to " +:+ "/proc/x" +:+ ": "
                   +:+ "Permission denied" +:+ nl) no_output,
     Returned 1).
Proof.
  apply csv_failure_stops_main.
  - intros t Hin. cbn in Hin.
    repeat (apply elem_of_cons in Hin as [->|Hin]; [reflexivity|]). inversion Hin.
  - reflexivity.
  - discriminate.
  - reflexivity.
Defined.

(** X12. When the arguments parse and the CSV file does not fail,
    [main] writes to [sys.stdout] the rendering of the normalized
    samples in the selected format (for JSON followed by a line break
    unless the output is a terminal) and after it only the line that
    reports the chart, and this line only if [main] returns: if an
    exception of the chart leaves [main], be it the one of [plt.ylim]
    or one of [savefig], the rendering is all that was written.  To
    [sys.stderr] it writes only the note about a missing matplotlib.
    To the file that it opens for [--output-csv], if asked for, it
    writes the CSV text of the same samples, which with [--format csv]
    is the text written to [sys.stdout] before the chart line. *)
Theorem main_writes (w : World) (args : Args) (parsed : list Sample) :
  for_each parse_point (points args) = Ok parsed ->
  csv_fails w args = false ->
  stdout (main w args).1
  = rendering w args (add_normalized parsed).1
    +:+ match (main w args).2 with
        | Returned _ => plot_line w args
        | Uncaught _ => ""
        end
  ∧ stderr (main w args).1 = plot_note w args
  ∧ csv_file (main w args).1
    = match output_csv args with
      | Some path =>
          if nonempty path then Some (path, csv_text (add_normalized parsed).1) else None
      | None => None
      end.
Proof.
  intros Hparse Hcsv.
  destruct (parsed_well_keyed _ _ Hparse) as (Hk & Hlen & _).
  unfold main, run_main. rewrite Hparse, add_normalized_eq. cbn [fst].
  set (pts := with_normalized (max_throughput parsed) <$> parsed).
  assert (Forall well_keyed pts) as Hk1.
  { apply Forall_fmap. eapply Forall_impl; [exact Hk|].
    intros pt. apply well_keyed_with_normalized. }
  assert (length pts = length (points args)) as Hlen1
    by (unfold pts; now rewrite length_fmap).
  unfold and_then.
  rewrite (output_csv_step_ok w args pts no_output Hcsv Hk1).
  set (o1 := match output_csv args with
             | Some path =>
                 if nonempty path then set_csv_file path (csv_text pts) no_output
                 else no_output
             | None => no_output
             end).
  rewrite (format_step_rendering w args pts o1 Hk1).
  set (o2 := set_stdout (stdout o1 +:+ rendering w args pts) o1).
  destruct (plot_step_writes w args pts o2 Hk1 Hlen1) as (Hout & Herr & Hfile).
  destruct (plot_step w args pts o2) as [[pts3 o3] r]; cbn [fst snd] in *.
  destruct Hout as [[-> Hout]|[[e ->] Hout]]; cbn [fst snd];
    rewrite Hout, Herr, Hfile; unfold o2, o1;
    destruct (output_csv args) as [path|]; try destruct (nonempty path);
    cbn [stdout stderr csv_file set_stdout set_csv_file no_output];
    rewrite ?append_empty_r; repeat split; reflexivity.
Qed.

(** the theorem of X12 at the end-to-end scenario *)
Lemma main_writes_witness :
  stdout (main fair_world scenario).1
  = rendering fair_world scenario (add_normalized scenario_points).1
    +:+ match (main fair_world scenario).2 with
        | Returned _ => plot_line fair_world scenario
        | Uncaught _ => ""
        end.
Proof.
  exact (proj1 (main_writes fair_world scenario scenario_points
                  ltac:(vm_compute; reflexivity) eq_refl)).
Defined.

(** X13. When the chart is not asked for ([--no-plot], or an empty
    [--plot-out]), [main] never looks at matplotlib: a run gives the same
    output and the same exit code in every world with the same files and
    the same terminal, and no chart is written. *)
Theorem no_plot_ignores_matplotlib (w w' : World) (args : Args) :
  plot_wanted args = false ->
  (∀ path : string, open_error w path = open_error w' path) ->
  stdout_isatty w = stdout_isatty w' ->
  main w args = main w' args ∧ chart_file (main w args).1 = None.
Proof.
  intros Hplot Hopen Htty.
  assert (run_main w args = run_main w' args) as Hrun.
  { unfold run_main.
    destruct (for_each parse_point (points args)) as [pts|e]; [|reflexivity].
    destruct (add_normalized pts) as [pts1 [[]|e]]; [|reflexivity].
    unfold and_then.
    rewrite (output_csv_step_world w w' args pts1 no_output Hopen).
    destruct (output_csv_step w' args pts1 no_output) as [[pts2 o2] [r|]]; [reflexivity|].
    rewrite (format_step_world w w' args pts2 o2 Htty).
    destruct (format_step w' args pts2 o2) as [[pts3 o3] [r|]]; [reflexivity|].
    now rewrite !plot_step_unwanted. }
  split; [unfold main; now rewrite Hrun|].
  unfold main, run_main.
  destruct (for_each parse_point (points args)) as [pts|[]]; try reflexivity.
  destruct (add_normalized pts) as [pts1 [[]|e]]; [|reflexivity].
  unfold and_then.
  pose proof (output_csv_step_chart w args pts1 no_output) as H1.
  destruct (output_csv_step w args pts1 no_output) as [[pts2 o2] [r|]];
    cbn [fst snd] in *; [exact H1|].
  pose proof (format_step_chart w args pts2 o2) as H2.
  destruct (format_step w args pts2 o2) as [[pts3 o3] [r|]];
    cbn [fst snd] in *; [now rewrite H2, H1|].
  rewrite plot_step_unwanted by exact Hplot. cbn [fst snd]. now rewrite H2, H1.
Qed.

(** the theorem of X13 at the end-to-end scenario with [--no-plot], with
    and without matplotlib *)
Lemma no_plot_ignores_matplotlib_witness :
  main fair_world
    {| points := points scenario; format := Csv; output_csv := None;
       plot_out := "chart.png"; no_plot := true |}
  = main {| open_error := λ _, None; stdout_isatty := false;
            matplotlib_error := Some "No module named 'matplotlib'";
            savefig_error := λ _, None |}
      {| points := points scenario; format := Csv; output_csv := None;
         plot_out := "chart.png"; no_plot := true |}.
Proof.
  apply no_plot_ignores_matplotlib; [reflexivity|intros path; reflexivity|reflexivity].
Defined.

(** X14. A sample whose throughput is [None] stays without a value
    through the whole pipeline: after [add_normalized] its
    [normalized_throughput] is [None], the throughput and the normalized
    fields of its CSV row are empty, and its bar has height 0 and the
    annotation [n/a] at height 1, under the label of its [cpu_pct]. *)
Theorem missing_throughput_propagates (points : list Sample) (i : nat) (pt : Sample) :
  points !! i = Some pt -> field pt "throughput" = None ->
  ∃ pt' : Sample,
    (add_normalized points).1 !! i = Some pt'
    ∧ pt' !! "normalized_throughput" = Some None
    ∧ nth 2 (csv_fields pt') "x" = ""
    ∧ nth 4 (csv_fields pt') "x" = ""
    ∧ chart_bar pt'
      = {| bar_label := label_of pt; bar_height := zero; bar_text := "n/a";
           bar_text_y := one |}.
Proof.
  intros Hi Hthr. exists (with_normalized (max_throughput points) pt).
  rewrite add_normalized_eq. cbn [fst].
  split; [rewrite list_lookup_fmap, Hi; reflexivity|].
  assert (normalized_value (max_throughput points) None = None) as Hnone
    by (now destruct (max_throughput points)).
  assert (field (with_normalized (max_throughput points) pt) "normalized_throughput"
          = None) as Hn.
  { unfold field. now rewrite lookup_with_normalized, Hthr, Hnone. }
  split; [now rewrite lookup_with_normalized, Hthr, Hnone|].
  unfold csv_fields, chart_bar, label_of, height_of. cbn [nth].
  rewrite Hn, !field_with_normalized by discriminate. rewrite Hthr.
  repeat split.
Qed.

(** the theorem of X14 at the samples of ["0,100000.0,620.0"] and
    ["10,N/A,20"], for the second one *)
Lemma missing_throughput_propagates_witness :
  ∃ pt' : Sample,
    (add_normalized [sample (Some zero) (Some (literal "100000.0")) (Some (literal "620.0"));
                     sample (Some (literal "10")) None (Some (literal "20"))]).1 !! 1%nat
    = Some pt'
    ∧ pt' !! "normalized_throughput" = Some None.
Proof.
  destruct (missing_throughput_propagates
              [sample (Some zero) (Some (literal "100000.0")) (Some (literal "620.0"));
               sample (Some (literal "10")) None (Some (literal "20"))]
              1%nat (sample (Some (literal "10")) None (Some (literal "20")))
              eq_refl ltac:(vm_compute; reflexivity))
    as (pt' & H1 & H2 & _).
  exists pt'. split; assumption.
Defined.

(** X15. When the maximum is finite and not zero, a sample whose
    throughput equals it is written with the normalized field [1.0000]
    in the CSV and drawn as a bar of height exactly 100, annotated
    [100.0%] at height 102. *)
Theorem best_sample_is_full_bar (points : list Sample) (m : float)
    (i : nat) (pt : Sample) (thr : float) :
  max_throughput points = Some m -> is_finite m = true -> truthy m = true ->
  points !! i = Some pt -> field pt "throughput" = Some thr -> eqb thr m = true ->
  ∃ pt' : Sample,
    (add_normalized points).1 !! i = Some pt'
    ∧ nth 4 (csv_fields pt') "x" = "1.0000"
    ∧ chart_bar pt'
      = {| bar_label := label_of pt; bar_height := hundred; bar_text := "100.0%";
           bar_text_y := of_Z 102 |}.
Proof.
  intros Hm Hfin Hnz Hi Hthr Heq. exists (with_normalized (max_throughput points) pt).
  rewrite add_normalized_eq. cbn [fst].
  split; [rewrite list_lookup_fmap, Hi; reflexivity|].
  assert (field (with_normalized (max_throughput points) pt) "normalized_throughput"
          = Some one) as Hn.
  { unfold field. rewrite lookup_with_normalized, Hm, Hthr. cbn. rewrite Hnz.
    destruct (eqb_finite_nonzero _ _ Heq Hfin Hnz) as (s & mm & e & -> & ->).
    now rewrite div_self. }
  unfold csv_fields, chart_bar, label_of, height_of. cbn [nth].
  rewrite Hn, !field_with_normalized by discriminate.
  split; [vm_compute; reflexivity|].
  generalize (if_none "?" availability_label (field pt "cpu_pct")). intros l.
  vm_compute. reflexivity.
Qed.

(** the theorem of X15 at the samples of the end-to-end scenario, for
    the first one *)
Lemma best_sample_is_full_bar_witness :
  ∃ pt' : Sample,
    (add_normalized scenario_points).1 !! 0%nat = Some pt'
    ∧ nth 4 (csv_fields pt') "x" = "1.0000".
Proof.
  destruct (best_sample_is_full_bar scenario_points (literal "100000.0") 0%nat
              (sample (Some zero) (Some (literal "100000.0")) (Some (literal "620.0")))
              (literal "100000.0")
              ltac:(vm_compute; reflexivity) eq_refl eq_refl eq_refl
              ltac:(vm_compute; reflexivity) eq_refl)
    as (pt' & H1 & H2 & _).
  exists pt'. split; assumption.
Defined.
